(** * Combat_generator: the animation client's keyframe store, timeline and
      generation hooks, embedded from the TypeScript sources.

    Conventions of the embedding.
    - A JavaScript [number] is an exact rational ([Q]).  [===] on numbers is
      [Qeq] (two representations of one rational compare equal, as [+0] and
      [-0] do in JavaScript); [NaN], the infinities and rounding are outside
      the model.
    - [any] is the type of plain JavaScript (JSON) values.
    - A React state updater is the pure function it is; a hook's callbacks
      are functions on the record of the hook's state cells.
    - [try]/[catch]/[finally] and [throw] are the operations of a small
      state-and-exception monad. *)

From Stdlib Require Import QArith Qminmax Qround Lqa NArith Ascii String.
From stdpp Require Import base option list strings pretty sorting gmap.

Set Default Proof Using "Type".
Local Open Scope string_scope.

(** ** JavaScript prelude *)

Abbreviation number := Q.

(** A JavaScript string is a sequence of UTF-16 code units.  Identifiers,
    message literals and object keys, which are never inspected by code unit,
    are kept as [string]. *)
Abbreviation jsstring := (list N).

Fixpoint utf16 (s : string) : jsstring :=
  match s with
  | EmptyString => []
  | String a s' => N_of_ascii a :: utf16 s'
  end.

#[warnings="-register-all"]
Inductive any : Type :=
| JUndefined
| JNull
| JBool (b : bool)
| JNumber (n : number)
| JString (s : jsstring)
| JArray (elements : list any)
| JObject (properties : list (string * any)).

(** [o.key]; [undefined] when [o] has no such property. *)
Definition prop (o : any) (key : string) : any :=
  match o with
  | JObject properties =>
      match List.find (fun kv => bool_decide (kv.1 = key)) properties with
      | Some kv => kv.2
      | None => JUndefined
      end
  | _ => JUndefined
  end.

(** ECMAScript [WhiteSpace] and [LineTerminator] code units, the ones
    [String.prototype.trim] strips. *)
Definition isWhiteSpace (c : N) : bool :=
  ((c =? 9) || (c =? 10) || (c =? 11) || (c =? 12) || (c =? 13) || (c =? 32)
   || (c =? 160) || (c =? 5760) || ((8192 <=? c) && (c <=? 8202))
   || (c =? 8232) || (c =? 8233) || (c =? 8239) || (c =? 8287)
   || (c =? 12288) || (c =? 65279))%N.

Fixpoint trimStart (s : jsstring) : jsstring :=
  match s with
  | [] => []
  | c :: s' => if isWhiteSpace c then trimStart s' else s
  end.

Definition trimEnd (s : jsstring) : jsstring := rev (trimStart (rev s)).

Definition trim (s : jsstring) : jsstring := trimEnd (trimStart s).

(** Truthiness of a string: the empty string is falsy. *)
Definition truthy (s : jsstring) : bool :=
  match s with [] => false | _ => true end.

(** [Math.floor] *)
Definition Math_floor (x : number) : Z := Qfloor x.

(** [x % y] on numbers: the remainder has the sign of [x], the quotient
    being rounded towards zero. *)
Definition js_rem (x y : number) : number :=
  let q := (x / y)%Q in
  let truncated := if Qle_bool 0 q then Qfloor q else Qceiling q in
  (x - y * inject_Z truncated)%Q.

(** [String(n)] for an integer [n]. *)
Definition Number_toString (n : Z) : string := pretty n.

(** [s.padStart(targetLength, fill)]: nothing is added when [s] is long
    enough or [fill] is empty; otherwise [fill] is repeated and cut to the
    missing length. *)
Definition padStart (targetLength : nat) (fill : string) (s : string) : string :=
  let missing := (targetLength - String.length s)%nat in
  match fill with
  | EmptyString => s
  | _ => substring 0 missing (String.concat "" (replicate missing fill)) ++ s
  end.

(** The outcome of a call: it returns a value or throws. *)
Inductive Completion (A E : Type) : Type :=
| Return (a : A)
| Throw (e : E).
Arguments Return {A E} a.
Arguments Throw {A E} e.

(** types/animation.ts, [APIError]: the body of an error response. *)
Record APIError : Type := {
  api_error : string;
  api_message : option string;
  api_details : any
}.

(** A thrown value: an [Error] with its [message]; an [AxiosError] also has
    [response.data]. *)
Record JsError : Type := {
  err_message : string;
  err_response_data : option APIError
}.

(** [new Error(message)] *)
Definition Error (message : string) : JsError :=
  {| err_message := message; err_response_data := None |}.

(** [a || b] where [a] may be [undefined]; the empty string is falsy. *)
Definition or_else (a : option string) (b : string) : string :=
  match a with
  | Some (String c s') => String c s'
  | _ => b
  end.

(** [err.response?.data?.message] and [err.response?.data?.error] *)
Definition response_message (err : JsError) : option string :=
  err_response_data err ≫= api_message.

Definition response_error (err : JsError) : option string :=
  api_error <$> err_response_data err.

(** The URLs the hooks call:
    [/api/animation/character], [/api/animation/${id}] and
    [/api/animation/${id}/render]. *)
Inductive Endpoint : Type :=
| CharacterEndpoint
| AnimationEndpoint (id : Z)
| RenderEndpoint (id : Z).

Inductive Method : Type := GET | PUT | POST.

Record Request : Type := {
  method : Method;
  url : Endpoint;
  data : any;
  headers : list (string * string)
}.

(** The far end of [axios]: what the server answers to a request, and the
    server's state after it.  A rejected promise is [Throw]. *)
Definition Handler (S R : Type) : Type :=
  Request -> S -> Completion R JsError * S.

(** *** Computations that may throw, over a state [W] *)

Definition M (W A : Type) : Type := W -> Completion A JsError * W.

Definition ret {W A} (a : A) : M W A := fun w => (Return a, w).

Definition bind {W A B} (m : M W A) (k : A -> M W B) : M W B :=
  fun w =>
    match m w with
    | (Return a, w') => k a w'
    | (Throw e, w') => (Throw e, w')
    end.

Definition throw {W A} (e : JsError) : M W A := fun w => (Throw e, w).

Definition modify {W} (f : W -> W) : M W unit := fun w => (Return tt, f w).

Definition gets {W A} (f : W -> A) : M W A := fun w => (Return (f w), w).

(** [try { m } catch (err) { handler err }] *)
Definition try_catch {W A} (m : M W A) (handler : JsError -> M W A) : M W A :=
  fun w =>
    match m w with
    | (Return a, w') => (Return a, w')
    | (Throw e, w') => handler e w'
    end.

(** [try { m } finally { final }]: [final] always runs; when it completes
    normally the outcome is that of [m]. *)
Definition try_finally {W A} (m : M W A) (final : M W unit) : M W A :=
  fun w =>
    match m w with
    | (r, w') =>
        match final w' with
        | (Return _, w'') => (r, w'')
        | (Throw e, w'') => (Throw e, w'')
        end
    end.

Declare Scope js_scope.
Delimit Scope js_scope with js.
Notation "x <- m ;; k" := (bind m (fun x => k))
  (at level 100, m at next level, right associativity) : js_scope.
Notation "m ;; k" := (bind m (fun _ => k))
  (at level 100, right associativity) : js_scope.

(** *** The network and a hook's world *)

Record Network (S : Type) : Type := {
  server : S;
  sent : list Request
}.
Arguments server {S} _.
Arguments sent {S} _.

(** The state cells [C] of a hook or component, and the network. *)
Record World (C S : Type) : Type := {
  cells : C;
  net : Network S
}.
Arguments cells {C S} _.
Arguments net {C S} _.

Definition on_cells {C S} (f : C -> C) : M (World C S) unit :=
  modify (fun w => {| cells := f (cells w); net := net w |}).

(** [await axios.request(req)]: the request is sent and the server's answer
    is the outcome. *)
Definition axios {C S R} (handler : Handler S R) (req : Request) : M (World C S) R :=
  fun w =>
    match handler req (server (net w)) with
    | (answer, server') =>
        (answer,
         {| cells := cells w;
            net := {| server := server'; sent := sent (net w) ++ [req] |} |})
    end.

(** [`Bearer ${token}`] *)
Definition bearer (token : option string) : string :=
  "Bearer " ++ default "null" token.

(** [!token] is [false] exactly for a non-empty string. *)
Definition token_present (token : option string) : bool :=
  match token with
  | Some (String _ _) => true
  | _ => false
  end.

#[global] Instance Qeq_decision (x y : Q) : Decision (x == y)%Q := Qeq_dec x y.

(** [Array.prototype.findIndex]; [None] stands for [-1]. *)
Fixpoint findIndex {A : Type} (p : A -> bool) (l : list A) : option nat :=
  match l with
  | [] => None
  | x :: l' => if p x then Some 0 else S <$> findIndex p l'
  end.

(** [Array.prototype.sort] with a comparator.  The built-in is a stable
    sort: an element goes before the first later element that the comparator
    does not put strictly before it. *)
Fixpoint sort_insert {A : Type} (cmp : A -> A -> number) (x : A) (l : list A) : list A :=
  match l with
  | [] => [x]
  | y :: l' =>
      if Qle_bool (cmp x y) 0 then x :: y :: l' else y :: sort_insert cmp x l'
  end.

Definition sort {A : Type} (cmp : A -> A -> number) (l : list A) : list A :=
  foldr (sort_insert cmp) [] l.

(** [xs.push(x)] on a fresh copy. *)
Definition push {A : Type} (l : list A) (x : A) : list A := l ++ [x].

(** ** hooks/useAnimation.ts *)

Module useAnimation.

Record Keyframe : Type := { time : number; value : any }.

Inductive TrackType : Type := character | effect | sound.

Record Track : Type := {
  id : string;
  name : string;
  type : TrackType;
  keyframes : list Keyframe
}.

Record Animation : Type := {
  animation_id : Z;
  title : string;
  description : string;
  duration : number;
  fps : number;
  resolution : string;
  scene_data : any;
  settings : any;
  status : string;
  render_progress : number;
  output_url : string;
  render_task_id : any
}.

(** The state cells of the hook. *)
Record State : Type := {
  currentAnimation : option Animation;
  tracks : list Track;
  currentTime : number;
  loading : bool;
  error : option string
}.

Definition initial : State :=
  {| currentAnimation := None; tracks := []; currentTime := 0;
     loading := false; error := None |}.

(** [{ ...track, keyframes: newKeyframes }] *)
Definition with_keyframes (track : Track) (newKeyframes : list Keyframe) : Track :=
  {| id := id track; name := name track; type := type track;
     keyframes := newKeyframes |}.

(** Lines 94-102: the copy of the track's keyframes after the upsert. *)
Definition newKeyframes (track : Track) (time0 : number) (value0 : any) : list Keyframe :=
  let keyframeIndex :=
    findIndex (fun k => Qeq_bool (time k) time0) (keyframes track) in
  match keyframeIndex with
  | None =>
      sort (fun a b => time a - time b)%Q
        (push (keyframes track) {| time := time0; value := value0 |})
  | Some i => <[i := {| time := time0; value := value0 |}]> (keyframes track)
  end.

(** The body of the updater passed to [setTracks] (lines 89-107).
    [prevTracks[trackIndex]] is defined whenever [findIndex] found the
    index; the [None] branch of the lookup is JavaScript's [undefined]
    case and is never taken. *)
Definition updateKeyframe_tracks (trackId : string) (time0 : number) (value0 : any)
    (prevTracks : list Track) : list Track :=
  match findIndex (fun t => bool_decide (id t = trackId)) prevTracks with
  | None => prevTracks
  | Some trackIndex =>
      match prevTracks !! trackIndex with
      | None => prevTracks
      | Some track =>
          <[trackIndex := with_keyframes track (newKeyframes track time0 value0)]>
            prevTracks
      end
  end.

Definition setTracks (f : list Track -> list Track) (s : State) : State :=
  {| currentAnimation := currentAnimation s; tracks := f (tracks s);
     currentTime := currentTime s; loading := loading s; error := error s |}.

(** [updateKeyframe] returns [undefined] and has no [throw]. *)
Definition updateKeyframe (trackId : string) (time0 : number) (value0 : any)
    (s : State) : Completion unit string * State :=
  (Return tt, setTracks (updateKeyframe_tracks trackId time0 value0) s).

(** The raw setter the hook exports (line 29, line 146). *)
Definition setCurrentTime (t : number) (s : State) : State :=
  {| currentAnimation := currentAnimation s; tracks := tracks s;
     currentTime := t; loading := loading s; error := error s |}.

Definition setLoading {S} (b : bool) : M (World State S) unit :=
  on_cells (fun s =>
    {| currentAnimation := currentAnimation s; tracks := tracks s;
       currentTime := currentTime s; loading := b; error := error s |}).

Definition setError {S} (e : option string) : M (World State S) unit :=
  on_cells (fun s =>
    {| currentAnimation := currentAnimation s; tracks := tracks s;
       currentTime := currentTime s; loading := loading s; error := e |}).

Definition setCurrentAnimation {S} (f : option Animation -> option Animation)
    : M (World State S) unit :=
  on_cells (fun s =>
    {| currentAnimation := f (currentAnimation s); tracks := tracks s;
       currentTime := currentTime s; loading := loading s; error := error s |}).

(** [{ ...prev, status: 'rendering', render_task_id: task_id }] *)
Definition rendering (prev : Animation) (task_id : any) : Animation :=
  {| animation_id := animation_id prev; title := title prev;
     description := description prev; duration := duration prev; fps := fps prev;
     resolution := resolution prev; scene_data := scene_data prev;
     settings := settings prev; status := "rendering";
     render_progress := render_progress prev; output_url := output_url prev;
     render_task_id := task_id |}.

(** Lines 110-138. *)
Definition startRendering {S} (handler : Handler S any) (token : option string)
    : M (World State S) unit :=
  (seen <- gets (fun w => currentAnimation (cells w)) ;;
   match seen with
   | None => ret tt
   | Some anim =>
       try_finally
         (try_catch
            (setLoading true ;;
             setError None ;;
             response_data <-
               axios handler
                 {| method := POST; url := RenderEndpoint (animation_id anim);
                    data := JObject [];
                    headers := [("Authorization", bearer token)] |} ;;
             setCurrentAnimation (fun prev =>
               match prev with
               | Some a => Some (rendering a (prop response_data "task_id"))
               | None => None
               end))
            (fun err =>
               setError (Some (or_else (response_error err) "Failed to start rendering")) ;;
               throw err))
         (setLoading false)
   end)%js.

(** Strictly ascending by time, hence without duplicate times. *)
Definition ascending (l : list Keyframe) : Prop :=
  StronglySorted (fun a b => (time a < time b)%Q) l.

(** The calls of a session on the keyframe store. *)
Record Call : Type := { call_track : string; call_time : number; call_value : any }.

Definition run_calls (calls : list Call) (s : State) : State :=
  foldl (fun acc c => (updateKeyframe (call_track c) (call_time c) (call_value c) acc).2)
    s calls.

End useAnimation.

(** ** components/Animation/Timeline.tsx *)

Module Timeline.

(** What the callbacks of one render close over.  [animate],
    [startAnimation] and [stopAnimation] are created anew by every render
    and see the [isPlaying] and [duration] of that render. *)
Record Render : Type := { seen_isPlaying : bool; seen_duration : number }.

(** Observable effects, in the order they happen. *)
Inductive Event : Type :=
| StopAnimationCalled
| FrameRequested (handle : nat)
| FrameCancelled (handle : nat).

(** The component's state cells and ref, and the browser's queue of
    [requestAnimationFrame] callbacks (each one is [animate] of some
    render). *)
Record State : Type := {
  isPlaying : bool;
  currentTime : number;
  duration : number;
  animationRef : option nat;
  scheduled : list (nat * Render);
  nextHandle : nat;
  trace : list Event
}.

Definition initial : State :=
  {| isPlaying := false; currentTime := 0; duration := 30;
     animationRef := None; scheduled := []; nextHandle := 1; trace := [] |}.

(** The closures of the render of the current state. *)
Definition render (st : State) : Render :=
  {| seen_isPlaying := isPlaying st; seen_duration := duration st |}.

Definition setIsPlaying (b : bool) (st : State) : State :=
  {| isPlaying := b; currentTime := currentTime st; duration := duration st;
     animationRef := animationRef st; scheduled := scheduled st;
     nextHandle := nextHandle st; trace := trace st |}.

Definition setCurrentTime (t : number) (st : State) : State :=
  {| isPlaying := isPlaying st; currentTime := t; duration := duration st;
     animationRef := animationRef st; scheduled := scheduled st;
     nextHandle := nextHandle st; trace := trace st |}.

Definition emit (e : Event) (st : State) : State :=
  {| isPlaying := isPlaying st; currentTime := currentTime st; duration := duration st;
     animationRef := animationRef st; scheduled := scheduled st;
     nextHandle := nextHandle st; trace := trace st ++ [e] |}.

(** [animationRef.current = requestAnimationFrame(animate)] *)
Definition requestAnimationFrame (r : Render) (st : State) : State :=
  let handle := nextHandle st in
  emit (FrameRequested handle)
    {| isPlaying := isPlaying st; currentTime := currentTime st; duration := duration st;
       animationRef := Some handle;
       scheduled := scheduled st ++ [(handle, r)];
       nextHandle := S handle; trace := trace st |}.

Definition cancelAnimationFrame (handle : nat) (st : State) : State :=
  emit (FrameCancelled handle)
    {| isPlaying := isPlaying st; currentTime := currentTime st; duration := duration st;
       animationRef := animationRef st;
       scheduled := filter (fun c => c.1 <> handle) (scheduled st);
       nextHandle := nextHandle st; trace := trace st |}.

(** Lines 21-26. *)
Definition startAnimation (r : Render) (st : State) : State :=
  if negb (seen_isPlaying r)
  then requestAnimationFrame r (setIsPlaying true st)
  else st.

(** Lines 28-35; a handle is truthy when it is not [0]. *)
Definition stopAnimation (r : Render) (st : State) : State :=
  if seen_isPlaying r
  then
    let st1 := setIsPlaying false st in
    match animationRef st1 with
    | Some (S h) => cancelAnimationFrame (S h) st1
    | _ => st1
    end
  else st.

(** Lines 37-48.  The updater of [setCurrentTime] is applied at once. *)
Definition animate (r : Render) (st : State) : State :=
  let prevTime := currentTime st in
  let newTime := (prevTime + (16 # 1000))%Q in
  let st1 :=
    if Qle_bool (seen_duration r) newTime
    then setCurrentTime 0 (stopAnimation r (emit StopAnimationCalled st))
    else setCurrentTime newTime st in
  requestAnimationFrame r st1.

(** Lines 50-52. *)
Definition handleTimeChange (newValue : number) (st : State) : State :=
  setCurrentTime newValue st.

(** [onClick={isPlaying ? stopAnimation : startAnimation}] of the render
    on screen. *)
Definition click (st : State) : State :=
  if isPlaying st then stopAnimation (render st) st else startAnimation (render st) st.

(** One animation frame of the browser: the callbacks requested before the
    frame run in order; those they request wait for the next frame. *)
Definition frame (st : State) : State :=
  foldl (fun acc c => animate c.2 acc)
    {| isPlaying := isPlaying st; currentTime := currentTime st; duration := duration st;
       animationRef := animationRef st; scheduled := [];
       nextHandle := nextHandle st; trace := trace st |}
    (scheduled st).

Fixpoint frames (n : nat) (st : State) : State :=
  match n with
  | O => st
  | S n' => frames n' (frame st)
  end.

(** The number of [stopAnimation()] calls made from [animate]. *)
Definition is_signal (e : Event) : bool :=
  match e with StopAnimationCalled => true | _ => false end.

Definition signals (st : State) : nat :=
  length (List.filter is_signal (trace st)).


(** The loop as [startAnimation] installs it: one pending callback, which
    is [animate] of a render in which [isPlaying] was [false]. *)
Definition ticking (st : State) : Prop :=
  exists handle,
    scheduled st = [(handle, {| seen_isPlaying := false; seen_duration := duration st |})].

(** Lines 60-65: the text of the clock,
    [{Math.floor(currentTime / 60)}:{Math.floor(currentTime % 60).toString().padStart(2, '0')}]. *)
Definition clock (st : State) : string :=
  Number_toString (Math_floor (currentTime st / 60))
  ++ ":"
  ++ padStart 2 "0" (Number_toString (Math_floor (js_rem (currentTime st) 60))).

(** What happens to the component: the button is pressed, the browser runs
    a frame, the slider is moved. *)
Inductive Action : Type :=
| Click
| Frame
| Seek (newValue : number).

Definition act (a : Action) (st : State) : State :=
  match a with
  | Click => click st
  | Frame => frame st
  | Seek newValue => handleTimeChange newValue st
  end.

(** The state after a history of actions on the mounted component. *)
Definition session (actions : list Action) : State :=
  foldl (fun st a => act a st) initial actions.

(** A slider position within the slider's range, [0] to the initial
    duration. *)
Definition in_slider_range (a : Action) : Prop :=
  match a with
  | Seek newValue => (0 <= newValue <= 30)%Q
  | _ => True
  end.


End Timeline.

(** ** types/animation.ts *)

Module types.

Inductive CharacterStyle : Type := modern | fantasy | sci_fi | historical.

Definition style_name (s : CharacterStyle) : string :=
  match s with
  | modern => "modern"
  | fantasy => "fantasy"
  | sci_fi => "sci-fi"
  | historical => "historical"
  end.

Inductive Status : Type := pending | processing | completed | failed.

Record GenerateCharacterResponse : Type := {
  id : string;
  modelData : any;
  traits : any;
  style : CharacterStyle;
  attributes : any;
  status : Status;
  progress : number;
  error : option string
}.

Inductive AlertColor : Type := success | info | warning | error_.

Record SnackbarState : Type := {
  open : bool;
  message : string;
  severity : option AlertColor
}.

End types.

(** ** hooks/useCharacterGenerator.ts *)

Module useCharacterGenerator.

Record State : Type := {
  loading : bool;
  error : option string
}.

Definition initial : State := {| loading := false; error := None |}.

Definition setLoading {S} (b : bool) : M (World State S) unit :=
  on_cells (fun s => {| loading := b; error := error s |}).

Definition setError {S} (e : option string) : M (World State S) unit :=
  on_cells (fun s => {| loading := loading s; error := e |}).

(** Lines 27-29. *)
Definition clearError {S} : M (World State S) unit := setError None.

(** Lines 31-74.  [attributes] is [None] when the argument is omitted. *)
Definition generateCharacter {S} (handler : Handler S types.GenerateCharacterResponse)
    (token : option string) (prompt : jsstring) (style : types.CharacterStyle)
    (attributes : option any) : M (World State S) types.GenerateCharacterResponse :=
  (try_finally
     (try_catch
        (setLoading true ;;
         setError None ;;
         (if negb (token_present token)
          then throw (Error "Authentication required")
          else ret tt) ;;
         response_data <-
           axios handler
             {| method := POST; url := CharacterEndpoint;
                data := JObject [("prompt", JString prompt);
                                 ("style", JString (utf16 (types.style_name style)));
                                 ("attributes", default (JObject []) attributes)];
                headers := [("Content-Type", "application/json");
                            ("Authorization", bearer token)] |} ;;
         match types.error response_data with
         | Some (String c m) => throw (Error (String c m))
         | _ => ret response_data
         end)
        (fun err =>
           let errorMessage :=
             or_else (response_message err)
               (or_else (response_error err) "Failed to generate character") in
           setError (Some errorMessage) ;;
           throw err))
     (setLoading false))%js.

(** The request that [generateCharacter] passes to [axios.post] (lines
    44-57). *)
Definition character_request (token : option string) (prompt : jsstring)
    (style : types.CharacterStyle) (attributes : option any) : Request :=
  {| method := POST; url := CharacterEndpoint;
     data := JObject [("prompt", JString prompt);
                      ("style", JString (utf16 (types.style_name style)));
                      ("attributes", default (JObject []) attributes)];
     headers := [("Content-Type", "application/json");
                 ("Authorization", bearer token)] |}.

End useCharacterGenerator.

(** ** components/Animation/CharacterPanel.tsx *)

Module CharacterPanel.

(** The component's state cells, the cells of the hook it uses, and what
    it has written to the console and passed to [onCharacterGenerated]. *)
Record State : Type := {
  prompt : jsstring;
  style : types.CharacterStyle;
  snackbar : types.SnackbarState;
  hook : useCharacterGenerator.State;
  console : list string;
  generated : list string
}.

Definition initial : State :=
  {| prompt := []; style := types.modern;
     snackbar := {| types.open := false; types.message := "";
                    types.severity := Some types.info |};
     hook := useCharacterGenerator.initial; console := []; generated := [] |}.

Definition setPrompt {S} (p : jsstring) : M (World State S) unit :=
  on_cells (fun s =>
    {| prompt := p; style := style s; snackbar := snackbar s; hook := hook s;
       console := console s; generated := generated s |}).

Definition setSnackbar {S} (sb : types.SnackbarState) : M (World State S) unit :=
  on_cells (fun s =>
    {| prompt := prompt s; style := style s; snackbar := sb; hook := hook s;
       console := console s; generated := generated s |}).

Definition console_error {S} (line : string) : M (World State S) unit :=
  on_cells (fun s =>
    {| prompt := prompt s; style := style s; snackbar := snackbar s; hook := hook s;
       console := console s ++ [line]; generated := generated s |}).

Definition onCharacterGenerated {S} (characterId : string) : M (World State S) unit :=
  on_cells (fun s =>
    {| prompt := prompt s; style := style s; snackbar := snackbar s; hook := hook s;
       console := console s; generated := generated s ++ [characterId] |}).

(** A call into the hook acts on the hook's cells and on the network. *)
Definition in_hook {S A} (m : M (World useCharacterGenerator.State S) A)
    : M (World State S) A :=
  fun w =>
    match m {| cells := hook (cells w); net := net w |} with
    | (r, w') =>
        (r,
         {| cells :=
              {| prompt := prompt (cells w); style := style (cells w);
                 snackbar := snackbar (cells w); hook := cells w';
                 console := console (cells w); generated := generated (cells w) |};
            net := net w' |})
    end.

(** Lines 151-161. *)
Definition validateForm {S} : M (World State S) bool :=
  (p <- gets (fun w => prompt (cells w)) ;;
   if negb (truthy (trim p))
   then
     setSnackbar {| types.open := true;
                    types.message := "Please enter a character description";
                    types.severity := Some types.warning |} ;;
     ret false
   else ret true)%js.

(** Lines 163-188.  [has_callback] says whether the [onCharacterGenerated]
    prop is defined; [prompt], [style] and the hook's [error] are those of
    the render the callback was created in. *)
Definition handleGenerate {S} (handler : Handler S types.GenerateCharacterResponse)
    (token : option string) (has_callback : bool) : M (World State S) unit :=
  (valid <- validateForm ;;
   if negb valid then ret tt
   else
     seen_prompt <- gets (fun w => prompt (cells w)) ;;
     seen_style <- gets (fun w => style (cells w)) ;;
     seen_error <- gets (fun w => useCharacterGenerator.error (hook (cells w))) ;;
     try_catch
       (result <-
          in_hook (useCharacterGenerator.generateCharacter handler token
                     seen_prompt seen_style None) ;;
        setSnackbar
          {| types.open := true;
             types.message := "Character " ++ types.id result ++ " generated successfully!";
             types.severity := Some types.success |} ;;
        (if has_callback then onCharacterGenerated (types.id result) else ret tt) ;;
        setPrompt [])
       (fun err =>
          console_error "Failed to generate character:" ;;
          setSnackbar
            {| types.open := true;
               types.message :=
                 or_else seen_error "Failed to generate character. Please try again.";
               types.severity := Some types.error_ |}))%js.

Definition setStyle {S} (st : types.CharacterStyle) : M (World State S) unit :=
  on_cells (fun s =>
    {| prompt := prompt s; style := st; snackbar := snackbar s; hook := hook s;
       console := console s; generated := generated s |}).

(** [if (error) clearError()] on the hook's error of the current render:
    [null] and the empty string are falsy. *)
Definition clear_truthy_error {S} : M (World State S) unit :=
  (seen_error <- gets (fun w => useCharacterGenerator.error (hook (cells w))) ;;
   match seen_error with
   | Some (String _ _) => in_hook useCharacterGenerator.clearError
   | _ => ret tt
   end)%js.

(** Lines 137-140; [value] is [e.target.value]. *)
Definition handlePromptChange {S} (value : jsstring) : M (World State S) unit :=
  (setPrompt value ;; clear_truthy_error)%js.

(** Lines 142-145. *)
Definition handleStyleChange {S} (value : types.CharacterStyle) : M (World State S) unit :=
  (setStyle value ;; clear_truthy_error)%js.

(** Lines 147-149: [{ ...prev, open: false }]. *)
Definition handleCloseSnackbar {S} : M (World State S) unit :=
  on_cells (fun s =>
    {| prompt := prompt s; style := style s;
       snackbar := {| types.open := false;
                      types.message := types.message (snackbar s);
                      types.severity := types.severity (snackbar s) |};
       hook := hook s; console := console s; generated := generated s |}).

(** Line 248: [disabled={!prompt.trim() || loading}] of the button. *)
Definition button_disabled (s : State) : bool :=
  negb (truthy (trim (prompt s))) || useCharacterGenerator.loading (hook s).

(** Lines 190-194: the key event's [key] and [ctrlKey]. *)
Definition handleKeyPress {S} (handler : Handler S types.GenerateCharacterResponse)
    (token : option string) (has_callback : bool) (key : string) (ctrlKey : bool)
    : M (World State S) unit :=
  if bool_decide (key = "Enter") && ctrlKey
  then handleGenerate handler token has_callback
  else ret tt.

End CharacterPanel.

(** ** The job orchestrator behind [/api/animation/${id}/render] *)

Module Orchestrator.

(** Modelled from the spec: the [targetKind] of a job; the server that
    keeps the jobs is not among the sources. *)
Inductive TargetKind : Type := character | animationRender.


(** Modelled from the spec: the states of the job state machine. *)
Inductive JobState : Type := Queued | Processing | Completed | Failed | Cancelled.

(** Modelled from the spec: the [GenerationJob] record of its data model;
    the server that keeps it is not among the sources. *)
Record GenerationJob : Type := {
  jobId : nat;
  targetKind : TargetKind;
  targetId : Z;
  state : JobState;
  progress : number;
  createdAt : nat;
  updatedAt : nat;
  result : option any;
  failureReason : option string
}.

(** Modelled from the spec: the error taxonomy of its error handling
    design. *)
Inductive Failure : Type :=
| ValidationError
| Conflict
| NotFound
| InvalidTransition
| Timeout.

#[global] Instance TargetKind_eq_dec : EqDecision TargetKind.
Proof. solve_decision. Defined.

(** Modelled from the spec: a job is active while [Queued] or
    [Processing]; [Completed], [Failed] and [Cancelled] are terminal. *)
Definition active (s : JobState) : bool :=
  match s with
  | Queued | Processing => true
  | Completed | Failed | Cancelled => false
  end.

(** Modelled from the spec: the terminal states. *)
Definition terminal (s : JobState) : bool := negb (active s).

(** Modelled from the spec: an active job for the pair [(kind, target)],
    as [submit] looks for one. *)
Definition active_for (kind : TargetKind) (target : Z) (job : GenerationJob) : Prop :=
  targetKind job = kind /\ targetId job = target /\ active (state job) = true.

#[global] Instance active_for_dec kind target job : Decision (active_for kind target job).
Proof. unfold active_for. apply _. Defined.

(** Modelled from the spec: [submit(targetKind, targetId, request)] of
    the job orchestrator -- [Conflict] when an active job exists for the
    pair, otherwise a new job in [Queued] under a job id no job of the
    table has, which is returned.  The table is keyed by job id. *)
Definition submit (kind : TargetKind) (target : Z) (request : any) (now : nat)
    (table : gmap nat GenerationJob) : Completion nat Failure * gmap nat GenerationJob :=
  if decide (map_Exists (fun _ job => active_for kind target job) table)
  then (Throw Conflict, table)
  else
    let j := fresh (dom table) in
    (Return j,
     <[j := {| jobId := j; targetKind := kind; targetId := target; state := Queued;
               progress := 0; createdAt := now; updatedAt := now;
               result := None; failureReason := None |}]> table).

(** Modelled from the spec: [getStatus(jobId)]. *)
Definition getStatus (j : nat) (table : gmap nat GenerationJob)
    : Completion GenerationJob Failure :=
  match table !! j with
  | Some job => Return job
  | None => Throw NotFound
  end.

(** Modelled from the spec: the labels of the transitions of the job state
    machine. *)
Inductive Transition : Type :=
| dispatch
| report (p : number)
| succeed (r : any)
| fail (reason : string)
| cancel.

(** Modelled from the spec: [progress] is a number in [[0, 1]]. *)
Definition clamp01 (p : number) : number := Qmax 0 (Qmin 1 p).

(** Modelled from the spec: the job state machine.  [progress] never
    decreases and is [1] on [Completed]; a transition the diagram does not
    have fails with [InvalidTransition]. *)
Definition transition (t : Transition) (now : nat) (job : GenerationJob)
    : Completion GenerationJob Failure :=
  let moved (s : JobState) (p : number) (r : option any) (why : option string) :=
    Return {| jobId := jobId job; targetKind := targetKind job;
              targetId := targetId job; state := s; progress := p;
              createdAt := createdAt job; updatedAt := now;
              result := r; failureReason := why |} in
  match t, state job with
  | dispatch, Queued => moved Processing (progress job) None None
  | report p, Processing =>
      moved Processing (Qmax (progress job) (clamp01 p)) None None
  | succeed r, Processing => moved Completed 1%Q (Some r) None
  | fail reason, Processing => moved Failed (progress job) None (Some reason)
  | cancel, (Queued | Processing) => moved Cancelled (progress job) None None
  | _, _ => Throw InvalidTransition
  end.

(** Modelled from the spec: one event on the job table, a transition of the
    job [j]; [NotFound] for an id the table does not have. *)
Definition step (j : nat) (t : Transition) (now : nat) (table : gmap nat GenerationJob)
    : Completion unit Failure * gmap nat GenerationJob :=
  match table !! j with
  | None => (Throw NotFound, table)
  | Some job =>
      match transition t now job with
      | Return job' => (Return tt, <[j := job']> table)
      | Throw e => (Throw e, table)
      end
  end.

(** Modelled from the spec: what happens to the job table -- a worker or a
    caller moves a job, or a caller submits. *)
Inductive Event : Type :=
| Moved (j : nat) (t : Transition) (now : nat)
| Submitted (kind : TargetKind) (target : Z) (request : any) (now : nat).

(** Modelled from the spec: the job table after an event; a failed event
    leaves the table as it was. *)
Definition apply_event (ev : Event) (table : gmap nat GenerationJob)
    : gmap nat GenerationJob :=
  match ev with
  | Moved j t now => (step j t now table).2
  | Submitted kind target request now => (submit kind target request now table).2
  end.

(** Modelled from the spec: a history of events on the job table, applied
    in order. *)
Definition run (events : list Event) (table : gmap nat GenerationJob)
    : gmap nat GenerationJob :=
  foldl (fun acc ev => apply_event ev acc) table events.

(** A submission for another pair than [(kind, target)], or a move. *)
Definition elsewhere (kind : TargetKind) (target : Z) (ev : Event) : Prop :=
  match ev with
  | Moved _ _ _ => True
  | Submitted kind' target' _ _ => kind' <> kind \/ target' <> target
  end.

(** Modelled from the spec: the state that [getStatus] shows for job [j],
    if the table has it. *)
Definition state_of (j : nat) (table : gmap nat GenerationJob) : option JobState :=
  state <$> table !! j.

(** Modelled from the spec: the render endpoint as a [Handler] --
    [POST /api/animation/${id}/render] submits an [animationRender] job for
    the animation and answers [{ task_id }], or an error response on
    [Conflict].  The server's state is the job table and its clock. *)
Definition render_endpoint : Handler (gmap nat GenerationJob * nat) any :=
  fun req srv =>
    match url req with
    | RenderEndpoint animation =>
        match submit animationRender animation (data req) srv.2 srv.1 with
        | (Return j, table') =>
            (Return (JObject [("task_id", JNumber (inject_Z (Z.of_nat j)))]),
             (table', S srv.2))
        | (Throw _, table') =>
            (Throw {| err_message := "Request failed with status code 409";
                      err_response_data :=
                        Some {| api_error := "Conflict"; api_message := None;
                                api_details := JUndefined |} |},
             (table', S srv.2))
        end
    | _ =>
        (Throw {| err_message := "Request failed with status code 404";
                  err_response_data := None |}, srv)
    end.

End Orchestrator.

(** ** hooks/useAuth.ts *)

Module useAuth.

Record User : Type := {
  id : Z;
  email : string;
  username : string;
  roles : list string
}.

(** The two requests of the provider: [POST /api/auth/login] with
    [{ email, password }] and [POST /api/auth/register] with
    [{ email, password, username }]. *)
Inductive AuthRequest : Type :=
| LoginRequest (email password : string)
| RegisterRequest (email password username : string).

(** [response.data] of both: [{ token, user }]. *)
Record AuthResponse : Type := {
  response_token : string;
  response_user : User
}.

(** The provider's state cells, the browser's [localStorage], the headers
    of [axios.defaults.headers.common], and the server with the requests sent
    to it. *)
Record World (S : Type) : Type := {
  user : option User;
  token : option string;
  localStorage : gmap string string;
  defaults : gmap string string;
  server : S;
  sent : list AuthRequest
}.
Arguments user {S} _.
Arguments token {S} _.
Arguments localStorage {S} _.
Arguments defaults {S} _.
Arguments server {S} _.
Arguments sent {S} _.

(** The provider when it mounts: [useState(null)] and
    [useState(() => localStorage.getItem('token'))]. *)
Definition mount {S} (storage defaults0 : gmap string string) (server0 : S) : World S :=
  {| user := None; token := storage !! "token"; localStorage := storage;
     defaults := defaults0; server := server0; sent := [] |}.

Definition AuthHandler (S : Type) : Type :=
  AuthRequest -> S -> Completion AuthResponse JsError * S.

Definition post {S} (handler : AuthHandler S) (req : AuthRequest)
    : M (World S) AuthResponse :=
  fun w =>
    match handler req (server w) with
    | (answer, server') =>
        (answer,
         {| user := user w; token := token w; localStorage := localStorage w;
            defaults := defaults w; server := server'; sent := sent w ++ [req] |})
    end.

(** [setToken(token); setUser(user); localStorage.setItem('token', token);
    axios.defaults.headers.common['Authorization'] = `Bearer ${token}`] *)
Definition sign_in {S} (data : AuthResponse) : M (World S) unit :=
  modify (fun w =>
    {| user := Some (response_user data); token := Some (response_token data);
       localStorage := <["token" := response_token data]> (localStorage w);
       defaults := <["Authorization" := "Bearer " ++ response_token data]> (defaults w);
       server := server w; sent := sent w |}).

(** Lines 31-45. *)
Definition login {S} (handler : AuthHandler S) (email password : string)
    : M (World S) unit :=
  try_catch
    (response_data <- post handler (LoginRequest email password) ;;
     sign_in response_data)%js
    (fun _ => throw (Error "Login failed")).

(** Lines 47-52. *)
Definition logout {S} : M (World S) unit :=
  modify (fun w =>
    {| user := None; token := None;
       localStorage := delete "token" (localStorage w);
       defaults := delete "Authorization" (defaults w);
       server := server w; sent := sent w |}).

(** Lines 54-72. *)
Definition register {S} (handler : AuthHandler S) (email password username : string)
    : M (World S) unit :=
  try_catch
    (response_data <- post handler (RegisterRequest email password username) ;;
     sign_in response_data)%js
    (fun _ => throw (Error "Registration failed")).

(** What a user of the provider does. *)
Inductive Action : Type :=
| Login (email password : string)
| Register (email password username : string)
| Logout.

Definition act {S} (handler : AuthHandler S) (a : Action) (w : World S) : World S :=
  match a with
  | Login email password => (login handler email password w).2
  | Register email password username => (register handler email password username w).2
  | Logout => (logout w).2
  end.

(** The provider after a history of actions since it mounted; a rejected
    call leaves what it leaves. *)
Definition session {S} (handler : AuthHandler S) (storage defaults0 : gmap string string)
    (server0 : S) (actions : list Action) : World S :=
  foldl (fun w a => act handler a w) (mount storage defaults0 server0) actions.

End useAuth.

(** ** services/api.ts *)

Module api.

(** Lines 7-13: the request interceptor, on the headers of the request's
    config; [if (token)] is [false] for [null] and for the empty string. *)
Definition interceptor (localStorage : gmap string string)
    (config_headers : gmap string string) : gmap string string :=
  match localStorage !! "token" with
  | Some (String c t) => <["Authorization" := "Bearer " ++ String c t]> config_headers
  | _ => config_headers
  end.

End api.

(** ** components/ErrorBoundary.tsx *)

Module ErrorBoundary.

(** [ErrorInfo]: the component stack. *)
Record ErrorInfo : Type := { componentStack : string }.

Record State : Type := {
  hasError : bool;
  error : option JsError;
  errorInfo : option ErrorInfo
}.

(** Lines 19-23. *)
Definition initial : State :=
  {| hasError := false; error := None; errorInfo := None |}.

(** Lines 25-31. *)
Definition getDerivedStateFromError (e : JsError) : State :=
  {| hasError := true; error := Some e; errorInfo := None |}.

(** Lines 33-39: [setState] merges the two fields into the state; the
    line written to the console is not part of the state. *)
Definition componentDidCatch (e : JsError) (info : ErrorInfo) (s : State) : State :=
  {| hasError := hasError s; error := Some e; errorInfo := Some info |}.

(** Lines 41-47. *)
Definition handleReset (s : State) : State :=
  {| hasError := false; error := None; errorInfo := None |}.

(** What [render] returns: the fallback, with the message and, in
    development, the component stack; or the children. *)
Inductive View : Type :=
| Fallback (message : option string) (stack : option string)
| Children.

(** Lines 49-90. *)
Definition render (development : bool) (s : State) : View :=
  if hasError s
  then Fallback (err_message <$> error s)
         (if development then componentStack <$> errorInfo s else None)
  else Children.

(** What happens to the boundary: a child throws while rendering (React
    calls [getDerivedStateFromError], then [componentDidCatch]), or the
    button is pressed. *)
Inductive Event : Type :=
| ChildThrew (e : JsError) (info : ErrorInfo)
| TryAgain.

Definition on_event (ev : Event) (s : State) : State :=
  match ev with
  | ChildThrew e info => componentDidCatch e info (getDerivedStateFromError e)
  | TryAgain => handleReset s
  end.

Definition history (events : list Event) : State :=
  foldl (fun s ev => on_event ev s) initial events.

End ErrorBoundary.

(** * Properties *)


(** ** Array helpers *)

Section array_facts.
Context {A : Type}.
Implicit Types (p : A -> bool) (l : list A).

Lemma findIndex_Some p l i :
  findIndex p l = Some i ->
  exists x, l !! i = Some x /\ p x = true /\
    forall j y, (j < i)%nat -> l !! j = Some y -> p y = false.
Proof.
  revert i. induction l as [|a l IH]; intros i; simpl; [done|].
  destruct (p a) eqn:Hpa.
  - intros [= <-]. exists a. split_and!; [done..|]. intros j y Hj. lia.
  - destruct (findIndex p l) as [k|] eqn:Hk; simpl; [|done].
    intros [= <-]. destruct (IH k eq_refl) as (x & Hx & Hpx & Hlt).
    exists x. split_and!; [done..|].
    intros [|j] y Hj; simpl; [by intros [= <-]|].
    apply Hlt. lia.
Qed.

Lemma findIndex_None p l :
  findIndex p l = None <-> Forall (fun x => p x = false) l.
Proof.
  induction l as [|a l IH]; simpl; [by split; [constructor|]|].
  destruct (p a) eqn:Hpa.
  - split; [done|]. intros H. apply Forall_cons_1 in H as [? _]. congruence.
  - rewrite Forall_cons. rewrite <- IH.
    destruct (findIndex p l); simpl; split; try done.
    by intros [_ ?].
Qed.

Lemma findIndex_first p l i x :
  l !! i = Some x -> p x = true ->
  (forall j y, (j < i)%nat -> l !! j = Some y -> p y = false) ->
  findIndex p l = Some i.
Proof.
  revert i. induction l as [|a l IH]; intros [|i]; simpl; try done.
  - by intros [= ->] ->.
  - intros Hx Hpx Hlt.
    rewrite (Hlt 0%nat a) by (done || lia).
    rewrite (IH i); [done..|].
    intros j y Hj Hy. apply (Hlt (S j) y); [lia|done].
Qed.

Lemma sort_insert_perm (cmp : A -> A -> number) x l :
  sort_insert cmp x l ≡ₚ x :: l.
Proof.
  induction l as [|y l IH]; simpl; [done|].
  destruct (Qle_bool (cmp x y) 0); [done|].
  rewrite IH. apply perm_swap.
Qed.

Lemma sort_perm (cmp : A -> A -> number) l : sort cmp l ≡ₚ l.
Proof.
  unfold sort. induction l as [|y l IH]; simpl; [done|].
  by rewrite sort_insert_perm, IH.
Qed.
End array_facts.

(** ** The keyframe store of [useAnimation] *)

Section keyframe_store.
Import useAnimation.
Implicit Types (k : Keyframe) (l : list Keyframe) (tr : Track) (ts : list Track).

Lemma StronglySorted_insert_equiv {A} (R : relation A) (l : list A) i x y :
  StronglySorted R l -> l !! i = Some x ->
  (forall z, R z x -> R z y) -> (forall z, R x z -> R y z) ->
  StronglySorted R (<[i := y]> l).
Proof.
  intros Hl. revert i. induction Hl as [|a l Hl IH Ha]; intros i; [done|].
  destruct i as [|i]; simpl.
  - intros [= ->] _ Hr. constructor; [done|].
    eapply Forall_impl; [exact Ha|]. auto.
  - intros Hx Hleft Hright. constructor; [by apply IH|].
    apply Forall_insert; [done|].
    apply Hleft. rewrite Forall_forall in Ha. apply Ha.
    by eapply list_elem_of_lookup_2.
Qed.

Lemma ascending_replace l i k t v :
  ascending l -> l !! i = Some k -> (time k == t)%Q ->
  ascending (<[i := {| time := t; value := v |}]> l).
Proof.
  intros Hl Hk Ht. eapply StronglySorted_insert_equiv; [done..| |]; simpl; intros z.
  - by rewrite Ht.
  - by rewrite Ht.
Qed.

Lemma ascending_sort_insert k l :
  ascending l -> Forall (fun y => ~ (time k == time y)%Q) l ->
  ascending (sort_insert (fun a b => time a - time b)%Q k l).
Proof.
  intros Hl. induction Hl as [|y l Hl IH Hy]; intros Hk; simpl.
  - repeat constructor.
  - apply Forall_cons_1 in Hk as [Hky Hk].
    destruct (Qle_bool (time k - time y) 0) eqn:Hle.
    + apply Qle_bool_iff in Hle.
      assert (time k < time y)%Q as Hlt.
      { destruct (Qlt_le_dec (time k) (time y)) as [|Hge]; [done|].
        exfalso. apply Hky. lra. }
      constructor; [by constructor|].
      constructor; [done|].
      eapply Forall_impl; [exact Hy|]. simpl. intros z Hz. lra.
    + assert (time y < time k)%Q as Hlt.
      { destruct (Qlt_le_dec (time y) (time k)) as [|Hge]; [done|].
        assert (Qle_bool (time k - time y) 0 = true); [|congruence].
        apply Qle_bool_iff. lra. }
      constructor; [by apply IH|].
      rewrite sort_insert_perm. by constructor.
Qed.

Lemma ascending_sort_push l k :
  ascending l -> Forall (fun y => ~ (time y == time k)%Q) l ->
  ascending (sort (fun a b => time a - time b)%Q (push l k)).
Proof.
  unfold sort, push. rewrite foldr_app. simpl.
  intros Hl. induction Hl as [|y l Hl IH Hy]; intros Hk; simpl.
  - repeat constructor.
  - apply Forall_cons_1 in Hk as [Hky Hk].
    apply ascending_sort_insert; [by apply IH|].
    assert (foldr (sort_insert (fun a b => time a - time b)%Q) [k] l ≡ₚ l ++ [k]) as ->.
    { clear. induction l as [|a l IHl]; simpl; [done|].
      by rewrite sort_insert_perm, IHl. }
    apply Forall_app. split.
    + eapply Forall_impl; [exact Hy|]. simpl. intros z Hz Heq. lra.
    + constructor; [done|constructor].
Qed.

Lemma ascending_newKeyframes tr t v :
  ascending (keyframes tr) -> ascending (newKeyframes tr t v).
Proof.
  intros Hl. unfold newKeyframes.
  destruct (findIndex _ (keyframes tr)) as [i|] eqn:Hfind.
  - apply findIndex_Some in Hfind as (k & Hk & Hkt & _).
    apply Qeq_bool_iff in Hkt. by eapply ascending_replace.
  - apply findIndex_None in Hfind.
    apply ascending_sort_push; [done|].
    eapply Forall_impl; [exact Hfind|]. simpl. intros k Hk Heq.
    apply Qeq_bool_iff in Heq. congruence.
Qed.

(** What one call does to the track stored at an index. *)
Lemma updateKeyframe_tracks_lookup trackId t v ts j tr :
  ts !! j = Some tr ->
  updateKeyframe_tracks trackId t v ts !! j = Some tr \/
  (findIndex (fun t => bool_decide (id t = trackId)) ts = Some j /\
   id tr = trackId /\
   updateKeyframe_tracks trackId t v ts !! j
     = Some (with_keyframes tr (newKeyframes tr t v))).
Proof.
  intros Hj. unfold updateKeyframe_tracks.
  destruct (findIndex _ ts) as [i|] eqn:Hfind; [|by left].
  destruct (findIndex_Some _ _ _ Hfind) as (x & Hx & Hpx & _).
  rewrite Hx. destruct (decide (i = j)) as [->|Hne].
  - right. simplify_eq. split_and!; [done| |].
    + by apply bool_decide_eq_true in Hpx.
    + apply list_lookup_insert_eq. by eapply lookup_lt_Some.
  - left. by rewrite list_lookup_insert_ne.
Qed.



Lemma newKeyframes_holds tr t v :
  {| time := t; value := v |} ∈ newKeyframes tr t v.
Proof.
  unfold newKeyframes.
  destruct (findIndex _ (keyframes tr)) as [i|] eqn:Hfind.
  - apply findIndex_Some in Hfind as (k & Hk & _).
    apply list_elem_of_lookup. exists i.
    apply list_lookup_insert_eq. by eapply lookup_lt_Some.
  - rewrite sort_perm. unfold push. apply elem_of_app. right. by apply list_elem_of_singleton.
Qed.

(** Where the first track with the given id stays, with the same id, after
    a call on that id. *)
Lemma updateKeyframe_tracks_found trackId t v ts j tr :
  findIndex (fun t => bool_decide (id t = trackId)) ts = Some j ->
  ts !! j = Some tr ->
  let ts' := updateKeyframe_tracks trackId t v ts in
  ts' !! j = Some (with_keyframes tr (newKeyframes tr t v)) /\
  findIndex (fun t => bool_decide (id t = trackId)) ts' = Some j.
Proof.
  intros Hfind Hj ts'.
  assert (ts' = <[j := with_keyframes tr (newKeyframes tr t v)]> ts) as ->.
  { unfold ts', updateKeyframe_tracks. by rewrite Hfind, Hj. }
  destruct (findIndex_Some _ _ _ Hfind) as (x & Hx & Hpx & Hbefore).
  simplify_eq. split.
  - apply list_lookup_insert_eq. by eapply lookup_lt_Some.
  - eapply findIndex_first.
    + apply list_lookup_insert_eq. by eapply lookup_lt_Some.
    + done.
    + intros i y Hi Hy. rewrite list_lookup_insert_ne in Hy by lia. by eapply Hbefore.
Qed.

(** The keyframes at 0, 5 and 10 after upserts at 5 and at 7. *)
Example upsert_merge_scenario :
  let a := {| id := "A"; name := "A"; type := character;
              keyframes := [ {| time := 0; value := JNull |};
                             {| time := 5; value := JNull |};
                             {| time := 10; value := JNull |} ] |} in
  let s := {| currentAnimation := None; tracks := [a]; currentTime := 0;
              loading := false; error := None |} in
  keyframes <$> tracks (run_calls [ {| call_track := "A"; call_time := 5;
                                       call_value := JBool true |};
                                    {| call_track := "A"; call_time := 7;
                                       call_value := JBool true |} ] s)
  = [ [ {| time := 0; value := JNull |}; {| time := 5; value := JBool true |};
        {| time := 7; value := JBool true |}; {| time := 10; value := JNull |} ] ].
Proof. reflexivity. Qed.

(** A time written as another fraction matches the keyframe it equals, and
    only the first track with the id is touched. *)
Example upsert_first_track_only :
  let a := {| id := "A"; name := "one"; type := effect;
              keyframes := [ {| time := 1 # 2; value := JNull |} ] |} in
  let b := {| id := "A"; name := "two"; type := sound; keyframes := [] |} in
  updateKeyframe_tracks "A" (2 # 4) (JBool true) [a; b]
  = [ with_keyframes a [ {| time := 2 # 4; value := JBool true |} ]; b ].
Proof. reflexivity. Qed.





Lemma setTracks_same (s : State) : setTracks (fun ts => ts) s = s.
Proof. by destruct s. Qed.

Lemma updateKeyframe_tracks_unknown trackId t v ts :
  Forall (fun tr => id tr <> trackId) ts -> updateKeyframe_tracks trackId t v ts = ts.
Proof.
  intros Hno. unfold updateKeyframe_tracks.
  assert (findIndex (fun x => bool_decide (id x = trackId)) ts = None) as ->; [|done].
  apply findIndex_None. eapply Forall_impl; [exact Hno|].
  simpl. intros x Hx. by apply bool_decide_eq_false.
Qed.

(** C5 as stated fails: a call with an id that no track has returns
    normally; nothing is thrown. *)
Lemma updateKeyframe_unknown_track_returns :
  let s := {| currentAnimation := None;
              tracks := [ {| id := "hero"; name := "Hero"; type := character;
                             keyframes := [] |} ];
              currentTime := 0; loading := false; error := None |} in
  Forall (fun tr => id tr <> "ghost") (tracks s) /\
  (updateKeyframe "ghost" 1 JNull s).1 = Return tt /\
  ~ (exists e, (updateKeyframe "ghost" 1 JNull s).1 = Throw e).
Proof.
  simpl. split; [|split].
  - by repeat constructor.
  - reflexivity.
  - by intros [e He].
Qed.

(** C5, amended.  A call whose [trackId] is the id of no track returns
    normally and leaves the hook's state as it was: the miss is silent. *)
Theorem updateKeyframe_unknown_track_noop (s : State) (trackId : string) (t : number)
    (v : any) :
  Forall (fun tr => id tr <> trackId) (tracks s) ->
  updateKeyframe trackId t v s = (Return tt, s).
Proof.
  intros Hno. unfold updateKeyframe. f_equal.
  destruct s as [a ts c l e]. unfold setTracks; simpl in *.
  by rewrite updateKeyframe_tracks_unknown.
Qed.

Lemma updateKeyframe_unknown_track_noop_witness :
  let s := {| currentAnimation := None;
              tracks := [ {| id := "hero"; name := "Hero"; type := character;
                             keyframes := [] |} ];
              currentTime := 0; loading := false; error := None |} in
  updateKeyframe "ghost" 1 JNull s = (Return tt, s).
Proof.
  intros s. apply (updateKeyframe_unknown_track_noop s "ghost" 1 JNull).
  simpl. by repeat constructor.
Defined.

(** C6.  A call changes nothing but the keyframes of a track whose id is
    [trackId]: the other cells of the hook, the number of tracks, every track
    with another id, and the id, name and type of every track stay as they
    were; and a call that finds no track leaves the whole state as it was. *)
Theorem updateKeyframe_frame (s : State) (trackId : string) (t : number) (v : any) :
  let s' := (updateKeyframe trackId t v s).2 in
  (currentAnimation s' = currentAnimation s /\ currentTime s' = currentTime s /\
   loading s' = loading s /\ error s' = error s) /\
  length (tracks s') = length (tracks s) /\
  (forall j tr, tracks s !! j = Some tr ->
     exists tr', tracks s' !! j = Some tr' /\
       id tr' = id tr /\ name tr' = name tr /\ type tr' = type tr /\
       (id tr <> trackId -> tr' = tr)) /\
  (forall j, findIndex (fun x => bool_decide (id x = trackId)) (tracks s) <> Some j ->
     tracks s' !! j = tracks s !! j) /\
  (Forall (fun tr => id tr <> trackId) (tracks s) -> s' = s).
Proof.
  simpl. split_and!; try done.
  - unfold updateKeyframe_tracks.
    destruct (findIndex _ (tracks s)) as [i|]; [|done].
    destruct (tracks s !! i); [|done]. apply length_insert.
  - intros j tr Hj.
    destruct (updateKeyframe_tracks_lookup trackId t v _ j tr Hj) as [H|(_ & Hid & H)].
    + by exists tr.
    + eexists. split; [exact H|]. by split_and!.
  - intros j Hne. unfold updateKeyframe_tracks.
    destruct (findIndex _ (tracks s)) as [i|]; [|done].
    destruct (tracks s !! i); [|done].
    apply list_lookup_insert_ne. congruence.
  - intros Hno. destruct s as [a ts c l e]. unfold setTracks; simpl in *.
    by rewrite updateKeyframe_tracks_unknown.
Qed.

(** C8 as stated fails: a keyframe update at time [-1] returns normally and
    changes the track. *)
Lemma updateKeyframe_negative_time_accepted :
  let hero := {| id := "hero"; name := "Hero"; type := character;
                 keyframes := [ {| time := 0; value := JNull |} ] |} in
  let s := {| currentAnimation := None; tracks := [hero];
              currentTime := 0; loading := false; error := None |} in
  let r := updateKeyframe "hero" (-1) (JBool true) s in
  (-1 < 0)%Q /\
  r.1 = Return tt /\
  tracks r.2 = [ with_keyframes hero [ {| time := -1; value := JBool true |};
                                       {| time := 0; value := JNull |} ] ] /\
  tracks r.2 <> tracks s.
Proof. simpl. split_and!; done. Qed.

(** C8, amended.  A keyframe update with a negative time is applied like
    any other: the call returns normally and the track that [trackId]
    designates then holds the keyframe, in ascending order if it was in
    ascending order. *)
Theorem updateKeyframe_negative_time_upserts (s : State) (trackId : string) (t : number)
    (v : any) (j : nat) (tr : Track) :
  (t < 0)%Q ->
  findIndex (fun x => bool_decide (id x = trackId)) (tracks s) = Some j ->
  tracks s !! j = Some tr ->
  let r := updateKeyframe trackId t v s in
  r.1 = Return tt /\
  exists tr', tracks r.2 !! j = Some tr' /\
    {| time := t; value := v |} ∈ keyframes tr' /\
    (ascending (keyframes tr) -> ascending (keyframes tr')).
Proof.
  intros _ Hfind Hj. simpl. split; [done|].
  destruct (updateKeyframe_tracks_found trackId t v _ _ _ Hfind Hj) as [Hj1 _].
  eexists. split; [exact Hj1|]. simpl. split.
  - apply newKeyframes_holds.
  - apply ascending_newKeyframes.
Qed.

Lemma updateKeyframe_negative_time_upserts_witness :
  let hero := {| id := "hero"; name := "Hero"; type := character;
                 keyframes := [ {| time := 0; value := JNull |} ] |} in
  let s := {| currentAnimation := None; tracks := [hero];
              currentTime := 0; loading := false; error := None |} in
  let r := updateKeyframe "hero" (-1) (JBool true) s in
  r.1 = Return tt /\
  exists tr', tracks r.2 !! 0%nat = Some tr' /\
    {| time := -1; value := JBool true |} ∈ keyframes tr' /\
    (ascending (keyframes hero) -> ascending (keyframes tr')).
Proof.
  intros hero s.
  apply (updateKeyframe_negative_time_upserts s "hero" (-1) (JBool true) 0 hero);
    reflexivity.
Defined.

End keyframe_store.

(** ** The playhead of [Timeline] *)

Section timeline.
Import Timeline.
Implicit Types (st : State) (r : Render).

Lemma stopAnimation_paused_render r st :
  seen_isPlaying r = false -> stopAnimation r st = st.
Proof. unfold stopAnimation. by intros ->. Qed.

Lemma signals_emit e st :
  signals (emit e st) = (signals st + (if is_signal e then 1 else 0))%nat.
Proof.
  unfold signals, emit; simpl. rewrite List.filter_app, length_app. simpl.
  by destruct (is_signal e).
Qed.

(** One frame of the installed loop. *)
Lemma frame_ticking st :
  ticking st ->
  let wrap := Qle_bool (duration st) (currentTime st + (16 # 1000)) in
  currentTime (frame st) = (if wrap then 0 else currentTime st + (16 # 1000))%Q /\
  signals (frame st) = (signals st + (if wrap then 1 else 0))%nat /\
  duration (frame st) = duration st /\
  isPlaying (frame st) = isPlaying st /\
  ticking (frame st).
Proof.
  intros [h Hs] wrap. unfold frame. rewrite Hs. simpl.
  unfold animate; simpl. fold wrap.
  rewrite stopAnimation_paused_render by done.
  destruct wrap; simpl.
  - split_and!; try done.
    + unfold signals; simpl. rewrite !List.filter_app, !length_app. simpl. lia.
    + by eexists.
  - split_and!; try done.
    + unfold signals; simpl. rewrite !List.filter_app, !length_app. simpl. lia.
    + by eexists.
Qed.

(** Pressing play on a paused timeline installs the loop. *)
Lemma click_paused_ticking st :
  isPlaying st = false -> scheduled st = [] ->
  ticking (click st) /\ isPlaying (click st) = true /\
  currentTime (click st) = currentTime st /\ duration (click st) = duration st.
Proof.
  intros Hp Hs. unfold click, startAnimation, render. rewrite Hp. simpl.
  split_and!; try done. eexists. simpl. by rewrite Hs.
Qed.


Lemma frames_ticking n st : ticking st -> ticking (frames n st).
Proof.
  revert st. induction n as [|n IH]; intros st Ht; simpl; [done|].
  apply IH. by apply frame_ticking.
Qed.

(** Play, three frames, pause: the playhead has advanced by three ticks and
    no callback is left pending. *)
Example play_three_frames_pause :
  let st := click (frames 3 (click initial)) in
  (currentTime st == 48 # 1000)%Q /\ isPlaying st = false /\ scheduled st = [] /\
  trace st = [ FrameRequested 1; FrameRequested 2; FrameRequested 3;
               FrameRequested 4; FrameCancelled 4 ].
Proof. vm_compute. split_and!; reflexivity. Qed.



(** C9 as stated fails: a requested time beyond the duration, or below
    [0], is stored as it is. *)
Lemma handleTimeChange_not_clamped :
  currentTime (handleTimeChange 45 initial) = 45%Q /\
  duration (handleTimeChange 45 initial) = 30%Q /\
  ~ (currentTime (handleTimeChange 45 initial) <= duration (handleTimeChange 45 initial))%Q /\
  ~ (0 <= currentTime (handleTimeChange (-5) initial))%Q.
Proof.
  simpl. split_and!; try done.
  - intros H. by apply H.
  - intros H. by apply H.
Qed.

(** C9, amended.  [handleTimeChange(t)], like the setter [setCurrentTime]
    that the hook exports, stores the requested time as it is, without
    clamping, and changes nothing else; so the playhead is within
    [[0, duration]] after the call exactly when [t] is. *)
Theorem handleTimeChange_stores_time (st : State) (t : number) :
  let st' := handleTimeChange t st in
  currentTime st' = t /\
  (duration st' = duration st /\ isPlaying st' = isPlaying st /\
   animationRef st' = animationRef st /\ scheduled st' = scheduled st) /\
  ((0 <= currentTime st' /\ currentTime st' <= duration st')%Q <->
   (0 <= t /\ t <= duration st)%Q) /\
  (forall s, useAnimation.currentTime (useAnimation.setCurrentTime t s) = t).
Proof. simpl. split_and!; done. Qed.

End timeline.

(** ** Character generation *)

Section character_generation.
Context {S : Type}.
Implicit Types (handler : Handler S types.GenerateCharacterResponse).

Lemma trimStart_blank (s : jsstring) :
  Forall (fun c => isWhiteSpace c = true) s -> trimStart s = [].
Proof. induction 1 as [|c s Hc _ IH]; simpl; [done|]. by rewrite Hc. Qed.

Lemma trim_blank (s : jsstring) :
  Forall (fun c => isWhiteSpace c = true) s -> trim s = [].
Proof. intros Hs. unfold trim. by rewrite trimStart_blank. Qed.

(** C10.  Called without a token, [generateCharacter] rejects with the
    error [Authentication required], sends nothing, sets the hook's error
    cell, and leaves [loading] at [false]; and [loading] is [false] after
    every call, whatever the token and the server's answer. *)
Theorem generateCharacter_without_token handler (prompt : jsstring)
    (style : types.CharacterStyle) (attributes : option any)
    (w : World useCharacterGenerator.State S) :
  let r := useCharacterGenerator.generateCharacter handler None prompt style attributes w in
  r.1 = Throw (Error "Authentication required") /\
  net r.2 = net w /\
  useCharacterGenerator.error (cells r.2) = Some "Failed to generate character" /\
  useCharacterGenerator.loading (cells r.2) = false /\
  (forall token,
     useCharacterGenerator.loading
       (cells (useCharacterGenerator.generateCharacter handler token prompt style
                 attributes w).2) = false).
Proof.
  simpl. split_and!; try done.
  intros token. unfold useCharacterGenerator.generateCharacter, try_finally.
  by destruct (try_catch _ _ w) as [r w'].
Qed.

(** C7.  When the prompt is empty or holds white space only,
    [handleGenerate] returns at once: [generateCharacter] is not called, no
    request is sent and the server is left as it was (no job is created);
    the prompt is rejected with the warning of [validateForm]. *)
Theorem handleGenerate_rejects_blank_prompt handler (token : option string)
    (has_callback : bool) (w : World CharacterPanel.State S) :
  Forall (fun c => isWhiteSpace c = true) (CharacterPanel.prompt (cells w)) ->
  let r := CharacterPanel.handleGenerate handler token has_callback w in
  r.1 = Return tt /\
  net r.2 = net w /\
  CharacterPanel.hook (cells r.2) = CharacterPanel.hook (cells w) /\
  CharacterPanel.generated (cells r.2) = CharacterPanel.generated (cells w) /\
  CharacterPanel.prompt (cells r.2) = CharacterPanel.prompt (cells w) /\
  CharacterPanel.snackbar (cells r.2)
  = {| types.open := true;
       types.message := "Please enter a character description";
       types.severity := Some types.warning |}.
Proof.
  intros Hblank.
  unfold CharacterPanel.handleGenerate, CharacterPanel.validateForm, bind, gets.
  rewrite (trim_blank _ Hblank). simpl. by split_and!.
Qed.

End character_generation.

Example trim_strips_both_ends :
  trim (utf16 "  a knight " ++ [160; 10]%N) = utf16 "a knight".
Proof. reflexivity. Qed.

(** With a token and a prompt, [handleGenerate] sends one request, and on
    the server's answer clears the prompt and reports the new character. *)
Example handleGenerate_sends_prompt :
  let answer :=
    {| types.id := "c7"; types.modelData := JNull; types.traits := JObject [];
       types.style := types.fantasy; types.attributes := JObject [];
       types.status := types.pending; types.progress := 0; types.error := None |} in
  let handler : Handler nat types.GenerateCharacterResponse :=
    fun _ jobs => (Return answer, Datatypes.S jobs) in
  let w : World CharacterPanel.State nat :=
    {| cells :=
         {| CharacterPanel.prompt := utf16 "a knight";
            CharacterPanel.style := types.fantasy;
            CharacterPanel.snackbar := CharacterPanel.snackbar CharacterPanel.initial;
            CharacterPanel.hook := useCharacterGenerator.initial;
            CharacterPanel.console := [];
            CharacterPanel.generated := [] |};
       net := {| server := 0%nat; sent := [] |} |} in
  let r := CharacterPanel.handleGenerate handler (Some "jwt") true w in
  r.1 = Return tt /\
  server (net r.2) = 1%nat /\
  (url <$> sent (net r.2)) = [CharacterEndpoint] /\
  CharacterPanel.prompt (cells r.2) = [] /\
  CharacterPanel.generated (cells r.2) = ["c7"] /\
  types.message (CharacterPanel.snackbar (cells r.2))
  = "Character c7 generated successfully!" /\
  CharacterPanel.hook (cells r.2) = useCharacterGenerator.initial.
Proof. vm_compute. split_and!; reflexivity. Qed.

(** An error response of the server: its [message] becomes the hook's
    error and the call rejects. *)
Example generateCharacter_server_error :
  let failure :=
    {| err_message := "Request failed with status code 500";
       err_response_data :=
         Some {| api_error := "Internal"; api_message := Some "Model unavailable";
                 api_details := JUndefined |} |} in
  let handler : Handler unit types.GenerateCharacterResponse :=
    fun _ srv => (Throw failure, srv) in
  let w : World useCharacterGenerator.State unit :=
    {| cells := useCharacterGenerator.initial; net := {| server := tt; sent := [] |} |} in
  let r := useCharacterGenerator.generateCharacter handler (Some "jwt")
             (utf16 "a knight") types.modern None w in
  r.1 = Throw failure /\
  length (sent (net r.2)) = 1%nat /\
  cells r.2 = {| useCharacterGenerator.loading := false;
                 useCharacterGenerator.error := Some "Model unavailable" |}.
Proof. vm_compute. split_and!; reflexivity. Qed.

Lemma handleGenerate_rejects_blank_prompt_witness :
  let blank : jsstring := [32; 9; 160; 10; 8202]%N in
  let w : World CharacterPanel.State unit :=
    {| cells :=
         {| CharacterPanel.prompt := blank;
            CharacterPanel.style := types.fantasy;
            CharacterPanel.snackbar := CharacterPanel.snackbar CharacterPanel.initial;
            CharacterPanel.hook := useCharacterGenerator.initial;
            CharacterPanel.console := [];
            CharacterPanel.generated := [] |};
       net := {| server := tt; sent := [] |} |} in
  let handler : Handler unit types.GenerateCharacterResponse :=
    fun _ srv => (Throw (Error "Network Error"), srv) in
  let r := CharacterPanel.handleGenerate handler (Some "jwt") true w in
  r.1 = Return tt /\
  net r.2 = net w /\
  CharacterPanel.hook (cells r.2) = CharacterPanel.hook (cells w) /\
  CharacterPanel.generated (cells r.2) = CharacterPanel.generated (cells w) /\
  CharacterPanel.prompt (cells r.2) = CharacterPanel.prompt (cells w) /\
  CharacterPanel.snackbar (cells r.2)
  = {| types.open := true;
       types.message := "Please enter a character description";
       types.severity := Some types.warning |}.
Proof.
  intros blank w handler.
  apply (handleGenerate_rejects_blank_prompt handler (Some "jwt") true w).
  simpl. repeat constructor.
Defined.

(** ** The job orchestrator *)

Section orchestrator.
Import Orchestrator.
Implicit Types (table : gmap nat GenerationJob) (job : GenerationJob).

Lemma transition_keeps t now job job' :
  transition t now job = Return job' ->
  targetKind job' = targetKind job /\ targetId job' = targetId job /\
  (active (state job') = true -> active (state job) = true).
Proof.
  unfold transition.
  destruct t, (state job) eqn:Hs; intros [= <-]; simpl; by rewrite ?Hs.
Qed.

Lemma fresh_job_id table : table !! fresh (dom table) = None.
Proof. apply not_elem_of_dom. apply is_fresh. Qed.

(** An event that is no submission for the pair keeps every job of the
    table, for the same target, takes no job from a terminal state back to
    an active one, and adds no job for the pair. *)
Lemma apply_event_keeps kind target ev table i :
  elsewhere kind target ev ->
  match table !! i, apply_event ev table !! i with
  | None, None => True
  | Some a, Some b =>
      targetKind b = targetKind a /\ targetId b = targetId a /\
      (active (state b) = true -> active (state a) = true)
  | None, Some b => targetKind b <> kind \/ targetId b <> target
  | Some _, None => False
  end.
Proof.
  destruct ev as [j t now|kind' target' request now]; simpl; intros Hev.
  - unfold step. destruct (table !! j) as [job|] eqn:Hj;
      [|by simpl; destruct (table !! i)].
    destruct (transition t now job) as [job'|e] eqn:Ht;
      [|by simpl; destruct (table !! i)].
    simpl. destruct (decide (i = j)) as [->|Hne].
    + rewrite Hj, lookup_insert_eq. by eapply transition_keeps.
    + rewrite lookup_insert_ne by done. by destruct (table !! i).
  - unfold submit. destruct (decide (map_Exists _ table)) as [|Hfree];
      [by simpl; destruct (table !! i)|].
    simpl. destruct (decide (i = fresh (dom table))) as [->|Hne].
    + by rewrite fresh_job_id, lookup_insert_eq.
    + rewrite lookup_insert_ne by done. by destruct (table !! i).
Qed.

Lemma run_keeps kind target events table i :
  Forall (elsewhere kind target) events ->
  match table !! i, run events table !! i with
  | None, None => True
  | Some a, Some b =>
      targetKind b = targetKind a /\ targetId b = targetId a /\
      (active (state b) = true -> active (state a) = true)
  | None, Some b => targetKind b <> kind \/ targetId b <> target
  | Some _, None => False
  end.
Proof.
  intros Hevs. revert table.
  induction Hevs as [|ev events Hev _ IH]; intros table; simpl.
  - by destruct (table !! i).
  - pose proof (apply_event_keeps kind target ev table i Hev) as H1.
    specialize (IH (apply_event ev table)).
    destruct (table !! i), (apply_event ev table !! i),
      (run events (apply_event ev table) !! i); try done.
    + destruct H1 as (Hk & Ht & Ha), IH as (Hk' & Ht' & Ha').
      split_and!; [congruence|congruence|auto].
    + destruct IH as (Hk' & Ht' & _). by rewrite Hk', Ht'.
Qed.

Lemma submit_conflict kind target request now table :
  map_Exists (fun _ job => active_for kind target job) table ->
  submit kind target request now table = (Throw Conflict, table).
Proof. intros H. unfold submit. by rewrite decide_True. Qed.

Lemma submit_accepts kind target request now table :
  ~ map_Exists (fun _ job => active_for kind target job) table ->
  let j := fresh (dom table) in
  submit kind target request now table
  = (Return j,
     <[j := {| jobId := j; targetKind := kind; targetId := target; state := Queued;
               progress := 0; createdAt := now; updatedAt := now;
               result := None; failureReason := None |}]> table).
Proof. intros H. unfold submit. by rewrite decide_False. Qed.

(** C3.  After a [submit] for a pair [(kind, target)] has returned the job
    [j], and whatever jobs have moved and whatever has been submitted for
    other pairs since: while [j] is [Queued] or [Processing], a second
    [submit] for the pair fails with [Conflict] and leaves the job table as
    it is; once [j] is [Completed], [Failed] or [Cancelled], a [submit] for
    the pair returns the id of a new job, which the table did not have, in
    [Queued]. *)
Theorem submit_conflict_until_terminal (kind : TargetKind) (target : Z) (request : any)
    (now : nat) table (j : nat) table1 (events : list Event)
    (request' : any) (now' : nat) :
  submit kind target request now table = (Return j, table1) ->
  Forall (elsewhere kind target) events ->
  let table2 := run events table1 in
  exists s, state_of j table2 = Some s /\
    (active s = true ->
       submit kind target request' now' table2 = (Throw Conflict, table2)) /\
    (terminal s = true ->
       exists j' table3,
         submit kind target request' now' table2 = (Return j', table3) /\
         j' <> j /\ table2 !! j' = None /\
         state_of j' table3 = Some Queued /\
         (forall i, i <> j' -> table3 !! i = table2 !! i)).
Proof.
  intros Hsubmit Hevents table2.
  pose proof (run_keeps kind target events table1) as Hev. fold table2 in Hev.
  clearbody table2. unfold submit in Hsubmit.
  destruct (decide (map_Exists _ table)) as [|Hfree]; [done|].
  injection Hsubmit as <- <-.
  set (j := fresh (dom table)) in *.
  pose proof (fresh_job_id table) as Hj. fold j in Hj.
  pose proof (Hev j Hevents) as Hevj. rewrite lookup_insert_eq in Hevj.
  destruct (table2 !! j) as [job2|] eqn:Hj2; [|done]. simpl in Hevj.
  destruct Hevj as (Hkind & Htarget & _).
  exists (state job2). split; [unfold state_of; by rewrite Hj2|]. split.
  - intros Hactive. apply submit_conflict. by exists j, job2.
  - intros Hterminal.
    assert (~ map_Exists (fun _ job => active_for kind target job) table2) as Hfree2.
    { intros (i & job & Hi & Hk & Ht & Ha).
      destruct (decide (i = j)) as [->|Hne].
      - simplify_eq. unfold terminal in Hterminal. by rewrite Ha in Hterminal.
      - specialize (Hev i Hevents). rewrite lookup_insert_ne, Hi in Hev by done.
        destruct (table !! i) as [job0|] eqn:Hi0.
        + destruct Hev as (Hk0 & Ht0 & Ha0).
          apply Hfree. exists i, job0. split; [done|].
          split_and!; [congruence|congruence|auto].
        + by destruct Hev. }
    eexists _, _. split; [by apply submit_accepts|].
    pose proof (fresh_job_id table2) as Hj'.
    split_and!.
    + intros Heq. rewrite Heq, Hj2 in Hj'. done.
    + done.
    + unfold state_of. by rewrite lookup_insert_eq.
    + intros i Hi. by rewrite lookup_insert_ne.
Qed.

Lemma submit_conflict_until_terminal_witness :
  let table1 : gmap nat GenerationJob :=
    {[ 0%nat := {| jobId := 0; targetKind := animationRender; targetId := 42;
                   state := Queued; progress := 0; createdAt := 7; updatedAt := 7;
                   result := None; failureReason := None |} ]} in
  let events := [ Moved 0 dispatch 8; Submitted character 42 JNull 8;
                  Moved 0 (report (1 # 2)) 9; Moved 0 (succeed JNull) 10 ] in
  let table2 := run events table1 in
  exists s, state_of 0 table2 = Some s /\
    (active s = true ->
       submit animationRender 42 JNull 11 table2 = (Throw Conflict, table2)) /\
    (terminal s = true ->
       exists j' table3,
         submit animationRender 42 JNull 11 table2 = (Return j', table3) /\
         j' <> 0%nat /\ table2 !! j' = None /\
         state_of j' table3 = Some Queued /\
         (forall i, i <> j' -> table3 !! i = table2 !! i)).
Proof.
  intros table1 events.
  apply (submit_conflict_until_terminal animationRender 42 JNull 7 ∅ 0 table1
           events JNull 11).
  - vm_compute. reflexivity.
  - unfold events.
    repeat first [apply Forall_nil_2 | apply Forall_cons_2]; simpl; try done.
    by left.
Defined.

(** [startRendering] against the orchestrator: the hook has no check of its
    own and passes on what [submit] decides for the current animation. *)
Lemma startRendering_follows_submit (token : option string)
    (w : World useAnimation.State (gmap nat GenerationJob * nat))
    (anim : useAnimation.Animation) :
  useAnimation.currentAnimation (cells w) = Some anim ->
  let r := useAnimation.startRendering render_endpoint token w in
  let target := useAnimation.animation_id anim in
  useAnimation.loading (cells r.2) = false /\
  match submit animationRender target (JObject []) (server (net w)).2 (server (net w)).1 with
  | (Return j, table') =>
      r.1 = Return tt /\ (server (net r.2)).1 = table' /\
      useAnimation.currentAnimation (cells r.2)
      = Some (useAnimation.rendering anim (JNumber (inject_Z (Z.of_nat j))))
  | (Throw _, _) =>
      (exists e, r.1 = Throw e) /\ (server (net r.2)).1 = (server (net w)).1 /\
      useAnimation.error (cells r.2) = Some "Conflict" /\
      useAnimation.currentAnimation (cells r.2) = Some anim
  end.
Proof.
  intros Hanim. destruct w as [c [[table clock] log]]. simpl in *.
  unfold useAnimation.startRendering, bind, gets. simpl. rewrite Hanim.
  unfold try_finally, try_catch, bind, axios, render_endpoint. simpl.
  unfold submit.
  destruct (decide (map_Exists _ table)) as [Hbusy|Hfree]; simpl.
  - rewrite Hanim. split; [done|]. split_and!; try done. by eexists.
  - rewrite Hanim. by split_and!.
Qed.

End orchestrator.


(** ** More on the keyframe store: what an upsert keeps, and how upserts
    compose *)

Section keyframe_algebra.
Import useAnimation.
Local Open Scope list_scope.
Implicit Types (k : Keyframe) (l : list Keyframe) (tr : Track) (ts : list Track).

Lemma findIndex_insert_same {A} (p : A -> bool) (xs : list A) j x x' :
  xs !! j = Some x -> p x' = p x ->
  findIndex p (<[j := x']> xs) = findIndex p xs.
Proof.
  revert j. induction xs as [|a xs IH]; intros [|j]; simpl; try done.
  - by intros [= ->] ->.
  - intros Hx Hp. by rewrite (IH j).
Qed.

Lemma updateKeyframe_tracks_eq trackId t v ts j tr :
  findIndex (fun x => bool_decide (id x = trackId)) ts = Some j ->
  ts !! j = Some tr ->
  updateKeyframe_tracks trackId t v ts
  = <[j := with_keyframes tr (newKeyframes tr t v)]> ts.
Proof. intros Hfind Hj. unfold updateKeyframe_tracks. by rewrite Hfind, Hj. Qed.



(** The two shapes of the keyframes after an upsert. *)
Lemma newKeyframes_cases tr t v :
  (findIndex (fun k => Qeq_bool (time k) t) (keyframes tr) = None /\
   Forall (fun k => ~ (time k == t)%Q) (keyframes tr) /\
   newKeyframes tr t v ≡ₚ {| time := t; value := v |} :: keyframes tr) \/
  (exists i l1 k0 l2,
     findIndex (fun k => Qeq_bool (time k) t) (keyframes tr) = Some i /\
     keyframes tr = l1 ++ k0 :: l2 /\ (time k0 == t)%Q /\
     newKeyframes tr t v = l1 ++ {| time := t; value := v |} :: l2).
Proof.
  unfold newKeyframes.
  destruct (findIndex _ (keyframes tr)) as [i|] eqn:Hfind.
  - right. apply findIndex_Some in Hfind as (k0 & Hk0 & Ht & _).
    apply Qeq_bool_iff in Ht.
    exists i, (take i (keyframes tr)), k0, (drop (S i) (keyframes tr)).
    split_and!; [done| |done|].
    + by rewrite take_drop_middle.
    + apply insert_take_drop. by eapply lookup_lt_Some.
  - left. split; [done|]. split.
    + apply findIndex_None in Hfind. eapply Forall_impl; [exact Hfind|].
      simpl. intros k Hk Heq. apply Qeq_bool_iff in Heq. congruence.
    + rewrite sort_perm. unfold push. by rewrite Permutation_app_comm.
Qed.

Lemma newKeyframes_others tr t v k :
  ~ (time k == t)%Q -> k ∈ newKeyframes tr t v <-> k ∈ keyframes tr.
Proof.
  intros Hk.
  destruct (newKeyframes_cases tr t v)
    as [(_ & _ & Hperm)|(i & l1 & k0 & l2 & _ & -> & Ht & ->)].
  - rewrite Hperm, elem_of_cons. split; [|by right].
    intros [->|?]; [|done]. by destruct Hk.
  - rewrite !elem_of_app, !elem_of_cons. split.
    + intros [?|[->|?]]; [by left| |by right; right]. by destruct Hk.
    + intros [?|[->|?]]; [by left| |by right; right]. by destruct Hk.
Qed.

Lemma newKeyframes_length tr t v :
  length (newKeyframes tr t v)
  = match findIndex (fun k => Qeq_bool (time k) t) (keyframes tr) with
    | Some _ => length (keyframes tr)
    | None => Datatypes.S (length (keyframes tr))
    end.
Proof.
  destruct (newKeyframes_cases tr t v)
    as [(-> & _ & Hperm)|(i & l1 & k0 & l2 & -> & -> & Ht & ->)].
  - by rewrite Hperm.
  - by rewrite !length_app.
Qed.





(** X1.  On the track that [trackId] designates, an upsert at time [t]
    keeps every keyframe at another time and adds none at another time; the
    track gains one keyframe when it had none at [t] and keeps its length
    otherwise. *)
Theorem updateKeyframe_keeps_other_times (s : State) (trackId : string) (t : number)
    (v : any) (j : nat) (tr : Track) :
  findIndex (fun x => bool_decide (id x = trackId)) (tracks s) = Some j ->
  tracks s !! j = Some tr ->
  exists tr', tracks (updateKeyframe trackId t v s).2 !! j = Some tr' /\
    (forall k, ~ (time k == t)%Q -> k ∈ keyframes tr' <-> k ∈ keyframes tr) /\
    length (keyframes tr')
    = match findIndex (fun k => Qeq_bool (time k) t) (keyframes tr) with
      | Some _ => length (keyframes tr)
      | None => Datatypes.S (length (keyframes tr))
      end.
Proof.
  intros Hfind Hj.
  destruct (updateKeyframe_tracks_found trackId t v _ _ _ Hfind Hj) as [Hj' _].
  eexists. split; [exact Hj'|]. simpl. split.
  - intros k Hk. by apply newKeyframes_others.
  - apply newKeyframes_length.
Qed.

Lemma updateKeyframe_keeps_other_times_witness :
  let hero := {| id := "hero"; name := "Hero"; type := character;
                 keyframes := [ {| time := 0; value := JNull |};
                                {| time := 10; value := JNull |} ] |} in
  let s := {| currentAnimation := None; tracks := [hero];
              currentTime := 0; loading := false; error := None |} in
  exists tr', tracks (updateKeyframe "hero" 5 (JBool true) s).2 !! 0%nat = Some tr' /\
    (forall k, ~ (time k == 5)%Q -> k ∈ keyframes tr' <-> k ∈ keyframes hero) /\
    length (keyframes tr')
    = match findIndex (fun k => Qeq_bool (time k) 5) (keyframes hero) with
      | Some _ => length (keyframes hero)
      | None => Datatypes.S (length (keyframes hero))
      end.
Proof.
  intros hero s.
  apply (updateKeyframe_keeps_other_times s "hero" 5 (JBool true) 0 hero); reflexivity.
Defined.







(** X5.  Upserts on different track ids give the same state in either
    order, whatever the tracks hold. *)
Theorem updateKeyframe_commutes_across_tracks (s : State) (id1 id2 : string)
    (t1 t2 : number) (v1 v2 : any) :
  id1 <> id2 ->
  (updateKeyframe id2 t2 v2 (updateKeyframe id1 t1 v1 s).2).2
  = (updateKeyframe id1 t1 v1 (updateKeyframe id2 t2 v2 s).2).2.
Proof.
  intros Hids. unfold updateKeyframe, setTracks. simpl. f_equal.
  set (ts := tracks s).
  set (p1 := fun x : Track => bool_decide (id x = id1)).
  set (p2 := fun x : Track => bool_decide (id x = id2)).
  assert (forall idx t v ts',
            findIndex (fun x => bool_decide (id x = idx)) ts' = None ->
            updateKeyframe_tracks idx t v ts' = ts') as Hmiss.
  { intros idx t v ts' H. unfold updateKeyframe_tracks. by rewrite H. }
  destruct (findIndex p1 ts) as [j1|] eqn:H1; destruct (findIndex p2 ts) as [j2|] eqn:H2.
  - destruct (findIndex_Some _ _ _ H1) as (tr1 & Hj1 & Hp1 & _).
    destruct (findIndex_Some _ _ _ H2) as (tr2 & Hj2 & Hp2 & _).
    apply bool_decide_eq_true in Hp1, Hp2.
    assert (j1 <> j2) as Hj by (intros ->; congruence).
    rewrite (updateKeyframe_tracks_eq id1 t1 v1 ts j1 tr1 H1 Hj1).
    rewrite (updateKeyframe_tracks_eq id2 t2 v2 ts j2 tr2 H2 Hj2).
    rewrite (updateKeyframe_tracks_eq id2 t2 v2 _ j2 tr2).
    + rewrite (updateKeyframe_tracks_eq id1 t1 v1 _ j1 tr1).
      * by apply list_insert_insert_ne.
      * by rewrite (findIndex_insert_same _ _ _ tr2).
      * by rewrite list_lookup_insert_ne.
    + by rewrite (findIndex_insert_same _ _ _ tr1).
    + by rewrite list_lookup_insert_ne.
  - destruct (findIndex_Some _ _ _ H1) as (tr1 & Hj1 & _).
    rewrite (Hmiss id2 t2 v2 ts H2).
    rewrite (updateKeyframe_tracks_eq id1 t1 v1 ts j1 tr1 H1 Hj1).
    apply Hmiss. by rewrite (findIndex_insert_same _ _ _ tr1).
  - destruct (findIndex_Some _ _ _ H2) as (tr2 & Hj2 & _).
    rewrite (Hmiss id1 t1 v1 ts H1).
    rewrite (updateKeyframe_tracks_eq id2 t2 v2 ts j2 tr2 H2 Hj2).
    symmetry. apply Hmiss. by rewrite (findIndex_insert_same _ _ _ tr2).
  - by rewrite (Hmiss id1 t1 v1 ts H1), (Hmiss id2 t2 v2 ts H2), (Hmiss id1 t1 v1 ts H1).
Qed.

Lemma updateKeyframe_commutes_across_tracks_witness :
  let hero := {| id := "hero"; name := "Hero"; type := character; keyframes := [] |} in
  let rain := {| id := "rain"; name := "Rain"; type := effect; keyframes := [] |} in
  let s := {| currentAnimation := None; tracks := [hero; rain];
              currentTime := 0; loading := false; error := None |} in
  (updateKeyframe "rain" 1 JNull (updateKeyframe "hero" 1 (JBool true) s).2).2
  = (updateKeyframe "hero" 1 (JBool true) (updateKeyframe "rain" 1 JNull s).2).2.
Proof.
  intros hero rain s.
  apply (updateKeyframe_commutes_across_tracks s "hero" "rain" 1 1 (JBool true) JNull).
  done.
Defined.

End keyframe_algebra.


(** ** [startRendering] against any server *)

Section rendering.
Context {S : Type}.
Implicit Types (handler : Handler S any) (w : World useAnimation.State S).

Lemma or_else_nonempty (a : option string) (b : string) :
  b <> "" -> or_else a b <> "".
Proof. by destruct a as [[|c m]|]. Qed.

(** What [startRendering] does, by the animation loaded and the server's
    answer. *)
Lemma startRendering_run handler (token : option string) w :
  let r := useAnimation.startRendering handler token w in
  match useAnimation.currentAnimation (cells w) with
  | None => r = (Return tt, w)
  | Some anim =>
      let req := {| method := POST; url := RenderEndpoint (useAnimation.animation_id anim);
                    data := JObject [];
                    headers := [("Authorization", bearer token)] |} in
      sent (net r.2) = (sent (net w) ++ [req])%list /\
      server (net r.2) = (handler req (server (net w))).2 /\
      useAnimation.tracks (cells r.2) = useAnimation.tracks (cells w) /\
      useAnimation.currentTime (cells r.2) = useAnimation.currentTime (cells w) /\
      useAnimation.loading (cells r.2) = false /\
      match (handler req (server (net w))).1 with
      | Return response_data =>
          r.1 = Return tt /\
          useAnimation.error (cells r.2) = None /\
          useAnimation.currentAnimation (cells r.2)
          = Some (useAnimation.rendering anim (prop response_data "task_id"))
      | Throw e =>
          r.1 = Throw e /\
          useAnimation.error (cells r.2)
          = Some (or_else (response_error e) "Failed to start rendering") /\
          useAnimation.currentAnimation (cells r.2) = Some anim
      end
  end.
Proof.
  destruct w as [c [srv log]]. simpl.
  unfold useAnimation.startRendering, bind, gets. simpl.
  destruct (useAnimation.currentAnimation c) as [anim|] eqn:Hanim; [|done].
  unfold try_finally, try_catch, bind, axios. simpl.
  destruct (handler _ srv) as [[response_data|e] srv']; simpl.
  - rewrite Hanim. by split_and!.
  - rewrite Hanim. by split_and!.
Qed.

(** X6.  [startRendering] sends a request exactly when an animation is
    loaded: then one [POST] to the render URL of that animation, with an empty
    body and the header [Authorization: Bearer <token>] -- also when the token
    is [null], which it does not check; with no animation it returns at once
    and changes nothing. *)
Theorem startRendering_request handler (token : option string) w :
  let r := useAnimation.startRendering handler token w in
  sent (net r.2)
  = (sent (net w) ++
     match useAnimation.currentAnimation (cells w) with
     | None => []
     | Some anim =>
         [ {| method := POST; url := RenderEndpoint (useAnimation.animation_id anim);
              data := JObject [];
              headers := [("Authorization", ("Bearer " ++ default "null" token)%string)] |} ]
     end)%list /\
  (useAnimation.currentAnimation (cells w) = None -> r = (Return tt, w)).
Proof.
  pose proof (startRendering_run handler token w) as H. simpl in *.
  destruct (useAnimation.currentAnimation (cells w)) as [anim|].
  - split; [|done]. by destruct H as (-> & _).
  - rewrite H. split; [|done]. simpl. by rewrite app_nil_r.
Qed.


End rendering.

(** ** Sessions on the timeline *)

Section timeline_sessions.
Import Timeline.
Implicit Types (st : State) (a : Action).

(** What every state of a session satisfies: the duration is the initial
    one; while playing, exactly one callback is pending, it is [animate] of a
    render in which [isPlaying] was [false], and [animationRef] holds its
    handle; while paused none is pending. *)
Lemma session_shape (actions : list Action) :
  let st := session actions in
  duration st = 30%Q /\ (0 < nextHandle st)%nat /\
  if isPlaying st
  then exists h, (0 < h)%nat /\ animationRef st = Some h /\
         scheduled st = [(h, {| seen_isPlaying := false; seen_duration := 30 |})]
  else scheduled st = [].
Proof.
  induction actions as [|a actions IH] using rev_ind; [simpl; split_and!; [done|lia|done]|].
  unfold session in *. rewrite foldl_app. simpl.
  set (st := foldl _ initial actions) in *. simpl in IH.
  destruct IH as (Hd & Hn & Hloop). destruct a as [| |t]; simpl.
  - unfold click, render. destruct (isPlaying st) eqn:Hp.
    + destruct Hloop as (h & Hh & Href & Hs).
      unfold stopAnimation. simpl. rewrite Href.
      destruct h as [|h]; [lia|]. simpl. rewrite Hs. simpl.
      rewrite filter_cons_False by (simpl; intros H; by apply H). by split_and!.
    + unfold startAnimation. simpl. rewrite Hloop, Hd. split_and!; [done|lia|].
      exists (nextHandle st). by split_and!.
  - destruct (isPlaying st) eqn:Hp.
    + destruct Hloop as (h & Hh & Href & Hs).
      assert (ticking st) as Ht by (exists h; by rewrite Hd).
      destruct (frame_ticking st Ht) as (_ & _ & Hd' & Hp' & _).
      rewrite Hp', Hp, Hd', Hd. split_and!; [done| |].
      * unfold frame. rewrite Hs. simpl. unfold animate, requestAnimationFrame. simpl. lia.
      * exists (nextHandle st). unfold frame. rewrite Hs. simpl.
        unfold animate. simpl.
        destruct (Qle_bool 30 _); simpl; by split_and!.
    + unfold frame. rewrite Hloop. simpl. rewrite Hp. by split_and!.
  - split_and!; [done|done|exact Hloop].
Qed.

Lemma frame_idle st : scheduled st = [] -> frame st = st.
Proof. intros Hs. destruct st. simpl in *. subst. reflexivity. Qed.

Lemma frames_idle n st : scheduled st = [] -> frames n st = st.
Proof.
  intros Hs. induction n as [|n IH]; simpl; [done|]. by rewrite frame_idle.
Qed.


Lemma session_snoc actions a : session (actions ++ [a]) = act a (session actions).
Proof. unfold session. by rewrite foldl_app. Qed.

Lemma paused_frames_idle_step actions :
  isPlaying (session actions) = false -> frame (session actions) = session actions.
Proof.
  intros Hp. apply frame_idle.
  destruct (session_shape actions) as (_ & _ & Hloop). by rewrite Hp in Hloop.
Qed.

Lemma session_ticking actions :
  isPlaying (session actions) = true -> ticking (session actions).
Proof.
  intros Hp. destruct (session_shape actions) as (Hd & _ & Hloop).
  rewrite Hp in Hloop. destruct Hloop as (h & _ & _ & Hs).
  exists h. by rewrite Hd.
Qed.

(** X8.  However presses of the button, frames and slider moves
    interleave after mounting, at most one [animate] callback is pending:
    exactly one while [isPlaying] is [true], whose handle [animationRef]
    holds, and none while it is [false]; and a press of the button always
    flips [isPlaying].  So no second loop is ever started, and pausing
    cancels the only pending callback. *)
Theorem session_single_loop (actions : list Action) :
  let st := session actions in
  (isPlaying st = true ->
     exists h, animationRef st = Some h /\
       scheduled st = [(h, {| seen_isPlaying := false; seen_duration := duration st |})]) /\
  (isPlaying st = false -> scheduled st = []) /\
  isPlaying (click st) = negb (isPlaying st).
Proof.
  simpl. destruct (session_shape actions) as (Hd & Hn & Hloop).
  set (st := session actions) in *.
  destruct (isPlaying st) eqn:Hp.
  - destruct Hloop as (h & Hh & Href & Hs). split_and!; [|done|].
    + intros _. exists h. by rewrite Hd.
    + unfold click, stopAnimation, render. rewrite Hp. simpl.
      rewrite Href. by destruct h.
  - split_and!; [done|done|].
    unfold click, startAnimation, render. by rewrite Hp.
Qed.

Lemma frame_in_range st :
  ticking st -> (0 < duration st)%Q -> (0 <= currentTime st)%Q ->
  (0 <= currentTime (frame st) < duration st)%Q.
Proof.
  intros Ht Hd Hpos. destruct (frame_ticking st Ht) as (-> & _).
  destruct (Qle_bool _ _) eqn:Hle; [lra|].
  split; [lra|].
  destruct (Qlt_le_dec (currentTime st + (16 # 1000)) (duration st)) as [|Hge]; [done|].
  apply Qle_bool_iff in Hge. congruence.
Qed.

(** X9.  While the timeline is paused, frames change nothing: the playhead
    stays where the last tick or slider move left it. *)
Theorem paused_frames_change_nothing (actions : list Action) (n : nat) :
  isPlaying (session actions) = false ->
  frames n (session actions) = session actions.
Proof.
  intros Hp. apply frames_idle.
  destruct (session_shape actions) as (_ & _ & Hloop). by rewrite Hp in Hloop.
Qed.

Lemma paused_frames_change_nothing_witness :
  frames 5 (session [Click; Frame; Seek 12; Frame; Click])
  = session [Click; Frame; Seek 12; Frame; Click].
Proof.
  apply (paused_frames_change_nothing [Click; Frame; Seek 12; Frame; Click] 5).
  reflexivity.
Defined.

(** X10.  One tick of the running loop lands the playhead in
    [[0, duration)], from any playhead that is not negative -- also from one
    that a slider move has put beyond the duration. *)
Theorem animate_lands_in_range st :
  ticking st -> (0 < duration st)%Q -> (0 <= currentTime st)%Q ->
  (0 <= currentTime (frame st) < duration st)%Q.
Proof. apply frame_in_range. Qed.

Lemma animate_lands_in_range_witness :
  let st := click (handleTimeChange 45 initial) in
  (0 <= currentTime (frame st) < duration st)%Q.
Proof.
  intros st. apply (animate_lands_in_range st).
  - eexists. vm_compute. reflexivity.
  - vm_compute. reflexivity.
  - apply Qle_bool_iff. vm_compute. reflexivity.
Defined.

(** X11.  In a session whose slider moves stay within the slider's range,
    the playhead is always within [[0, 30]]: ticks never take it out. *)
Theorem session_playhead_in_range (actions : list Action) :
  Forall in_slider_range actions ->
  (0 <= currentTime (session actions) <= 30)%Q.
Proof.
  induction actions as [|a actions IH] using rev_ind; intros Hall.
  - simpl. lra.
  - apply Forall_app in Hall as [Hall Ha]. apply Forall_cons_1 in Ha as [Ha _].
    specialize (IH Hall). rewrite session_snoc.
    destruct (session_shape actions) as (Hd & _ & _).
    destruct a as [| |t]; simpl.
    + unfold click, stopAnimation, startAnimation, render.
      destruct (isPlaying (session actions)); simpl; [|done].
      by destruct (animationRef (session actions)) as [[|h]|].
    + destruct (isPlaying (session actions)) eqn:Hp.
      * pose proof (frame_in_range _ (session_ticking _ Hp)) as H.
        rewrite Hd in H. lra.
      * by rewrite (paused_frames_idle_step _ Hp).
    + exact Ha.
Qed.

Lemma session_playhead_in_range_witness :
  (0 <= currentTime (session [Seek 30; Click; Frame; Seek (5 # 2); Frame]) <= 30)%Q.
Proof.
  apply (session_playhead_in_range [Seek 30; Click; Frame; Seek (5 # 2); Frame]).
  repeat first [apply Forall_nil_2 | apply Forall_cons_2]; simpl; try done;
    split; apply Qle_bool_iff; reflexivity.
Defined.






End timeline_sessions.

(** ** The clock of the timeline *)

Section timeline_clock.
Import Timeline.





(** With no clamp on the playhead, a negative one shows as it computes. *)
Example clock_negative_playhead :
  clock (handleTimeChange (-5) initial) = "-1:-5".
Proof. reflexivity. Qed.

End timeline_clock.

(** ** The character panel and its hook, against any server *)

Section character_panel.
Context {S : Type}.
Implicit Types (handler : Handler S types.GenerateCharacterResponse).
Local Open Scope list_scope.

Lemma trimStart_head (s : jsstring) :
  trimStart s = [] \/ exists c r, trimStart s = c :: r /\ isWhiteSpace c = false.
Proof.
  induction s as [|c s IH]; simpl; [by left|].
  destruct (isWhiteSpace c) eqn:Hc; [done|]. right. by exists c, s.
Qed.

Lemma trimStart_nil (s : jsstring) :
  trimStart s = [] <-> Forall (fun c => isWhiteSpace c = true) s.
Proof.
  induction s as [|c s IH]; simpl; [by split; [constructor|]|].
  destruct (isWhiteSpace c) eqn:Hc.
  - rewrite IH, Forall_cons. by intuition.
  - split; [done|]. intros H. apply Forall_cons_1 in H as [? _]. congruence.
Qed.

Lemma trim_nil (s : jsstring) :
  trim s = [] <-> Forall (fun c => isWhiteSpace c = true) s.
Proof.
  unfold trim, trimEnd. split.
  - intros H. apply (f_equal (@rev N)) in H. rewrite rev_involutive in H. simpl in H.
    apply trimStart_nil in H. apply trimStart_nil.
    destruct (trimStart_head s) as [Hs|(c & r & Hs & Hc)]; [done|].
    apply Forall_rev in H. rewrite rev_involutive, Hs in H.
    apply Forall_cons_1 in H as [? _]. congruence.
  - intros H. apply trimStart_nil in H. by rewrite H.
Qed.

Lemma forallb_Forall {A} (f : A -> bool) (l : list A) :
  forallb f l = true <-> Forall (fun x => f x = true) l.
Proof.
  induction l as [|x l IH]; simpl; [by split; [constructor|]|].
  rewrite andb_true_iff, IH, Forall_cons. done.
Qed.

Lemma truthy_trim (s : jsstring) :
  truthy (trim s) = negb (forallb isWhiteSpace s).
Proof.
  destruct (forallb isWhiteSpace s) eqn:Hall; simpl.
  - apply forallb_Forall, trim_nil in Hall. by rewrite Hall.
  - destruct (trim s) eqn:Ht; [|done].
    apply trim_nil, forallb_Forall in Ht. congruence.
Qed.

(** What [generateCharacter] does, by the token and the server's answer. *)
Lemma generateCharacter_run handler (token : option string) (prompt : jsstring)
    (style : types.CharacterStyle) (attributes : option any)
    (w : World useCharacterGenerator.State S) :
  let req := useCharacterGenerator.character_request token prompt style attributes in
  let generic := "Failed to generate character"%string in
  useCharacterGenerator.generateCharacter handler token prompt style attributes w
  = if token_present token
    then
      match handler req (server (net w)) with
      | (Return response_data, server') =>
          let sent' := {| server := server'; sent := sent (net w) ++ [req] |} in
          match types.error response_data with
          | Some (String c m) =>
              (Throw (Error (String c m)),
               {| cells := {| useCharacterGenerator.loading := false;
                              useCharacterGenerator.error := Some generic |};
                  net := sent' |})
          | _ =>
              (Return response_data,
               {| cells := {| useCharacterGenerator.loading := false;
                              useCharacterGenerator.error := None |};
                  net := sent' |})
          end
      | (Throw e, server') =>
          (Throw e,
           {| cells :=
                {| useCharacterGenerator.loading := false;
                   useCharacterGenerator.error :=
                     Some (or_else (response_message e)
                             (or_else (response_error e) generic)) |};
              net := {| server := server'; sent := sent (net w) ++ [req] |} |})
      end
    else
      (Throw (Error "Authentication required"),
       {| cells := {| useCharacterGenerator.loading := false;
                      useCharacterGenerator.error := Some generic |};
          net := net w |}).
Proof.
  destruct w as [c [srv log]]. simpl.
  unfold useCharacterGenerator.generateCharacter, try_finally, try_catch, bind, axios.
  simpl. destruct (token_present token); simpl; [|done].
  fold (useCharacterGenerator.character_request token prompt style attributes).
  destruct (handler _ srv) as [[d|e] srv']; simpl; [|done].
  by destruct (types.error d) as [[|ch m]|].
Qed.

(** X14.  [generateCharacter] sends a request exactly when the token is a
    non-empty string (the empty string counts as no token): then one [POST]
    to [/api/animation/character] that carries the prompt as given, the
    style, the attributes or [{}], and [Authorization: Bearer <token>]; and
    the server is then in the state its answer left. *)
Theorem generateCharacter_request handler (token : option string) (prompt : jsstring)
    (style : types.CharacterStyle) (attributes : option any)
    (w : World useCharacterGenerator.State S) :
  let r := useCharacterGenerator.generateCharacter handler token prompt style attributes w in
  let req := {| method := POST; url := CharacterEndpoint;
                data := JObject [("prompt", JString prompt);
                                 ("style", JString (utf16 (types.style_name style)));
                                 ("attributes", default (JObject []) attributes)];
                headers := [("Content-Type", "application/json"%string);
                            ("Authorization", ("Bearer " ++ default "null" token)%string)] |} in
  match token with
  | Some (String _ _) =>
      sent (net r.2) = sent (net w) ++ [req] /\
      server (net r.2) = (handler req (server (net w))).2
  | _ => net r.2 = net w /\ r.1 = Throw (Error "Authentication required")
  end.
Proof.
  simpl. rewrite generateCharacter_run.
  destruct token as [[|c t]|]; simpl; [done| |done].
  unfold useCharacterGenerator.character_request, bearer. simpl.
  destruct (handler _ (server (net w))) as [[d|e] srv']; simpl; [|done].
  by destruct (types.error d) as [[|ch m]|].
Qed.

(** X15.  After [generateCharacter] the error cell tells the outcome: it
    is [null] exactly when the call resolved, and a non-empty message when it
    rejected.  A call resolves only with the data the server answered, and
    only when that data has no error of its own. *)
Theorem generateCharacter_error_cell handler (token : option string) (prompt : jsstring)
    (style : types.CharacterStyle) (attributes : option any)
    (w : World useCharacterGenerator.State S) :
  let r := useCharacterGenerator.generateCharacter handler token prompt style attributes w in
  match r.1 with
  | Return response_data =>
      useCharacterGenerator.error (cells r.2) = None /\
      (types.error response_data = None \/ types.error response_data = Some ""%string) /\
      exists req, (handler req (server (net w))).1 = Return response_data
  | Throw e =>
      exists m, useCharacterGenerator.error (cells r.2) = Some m /\ m <> ""%string
  end.
Proof.
  simpl. rewrite generateCharacter_run.
  destruct (token_present token); simpl; [|by eexists].
  destruct (handler _ (server (net w))) as [[d|e] srv'] eqn:Hans; simpl.
  - destruct (types.error d) as [[|ch m]|] eqn:Herr; simpl.
    + split_and!; [done|by right|]. eexists. by rewrite Hans.
    + by eexists.
    + split_and!; [done|by left|]. eexists. by rewrite Hans.
  - eexists. split; [done|]. by repeat apply or_else_nonempty.
Qed.

(** X16.  When the server answers with data that carries a non-empty
    [error], [generateCharacter] rejects with an [Error] of that message, but
    the error cell of the hook gets the generic text: the message of the body
    is not what the hook keeps. *)
Theorem generateCharacter_body_error handler (token : option string) (prompt : jsstring)
    (style : types.CharacterStyle) (attributes : option any)
    (w : World useCharacterGenerator.State S)
    (response_data : types.GenerateCharacterResponse) (server' : S) (message : string) :
  token_present token = true ->
  handler (useCharacterGenerator.character_request token prompt style attributes)
    (server (net w)) = (Return response_data, server') ->
  types.error response_data = Some message -> message <> ""%string ->
  let r := useCharacterGenerator.generateCharacter handler token prompt style attributes w in
  r.1 = Throw (Error message) /\
  useCharacterGenerator.error (cells r.2) = Some "Failed to generate character"%string /\
  useCharacterGenerator.loading (cells r.2) = false.
Proof.
  intros Htoken Hans Herr Hmsg. simpl. rewrite generateCharacter_run.
  rewrite Htoken, Hans, Herr. by destruct message.
Qed.

End character_panel.

Lemma generateCharacter_body_error_witness :
  let answer :=
    {| types.id := ""; types.modelData := JNull; types.traits := JObject [];
       types.style := types.modern; types.attributes := JObject [];
       types.status := types.failed; types.progress := 0;
       types.error := Some "Prompt rejected by the content filter" |} in
  let handler : Handler unit types.GenerateCharacterResponse :=
    fun _ srv => (Return answer, srv) in
  let w : World useCharacterGenerator.State unit :=
    {| cells := useCharacterGenerator.initial; net := {| server := tt; sent := [] |} |} in
  let r := useCharacterGenerator.generateCharacter handler (Some "jwt")
             (utf16 "a knight") types.modern None w in
  r.1 = Throw (Error "Prompt rejected by the content filter") /\
  useCharacterGenerator.error (cells r.2) = Some "Failed to generate character" /\
  useCharacterGenerator.loading (cells r.2) = false.
Proof.
  intros answer handler w.
  apply (generateCharacter_body_error handler (Some "jwt") (utf16 "a knight")
           types.modern None w answer tt "Prompt rejected by the content filter");
    reflexivity || done.
Defined.

Section character_panel_handlers.
Context {S : Type}.
Implicit Types (handler : Handler S types.GenerateCharacterResponse)
  (w : World CharacterPanel.State S).
Local Open Scope list_scope.

(** What [handleGenerate] does, by the prompt and the outcome of the hook's
    [generateCharacter]. *)
Lemma handleGenerate_run handler (token : option string) (has_callback : bool) w :
  let c := cells w in
  let rh := useCharacterGenerator.generateCharacter handler token
              (CharacterPanel.prompt c) (CharacterPanel.style c) None
              {| cells := CharacterPanel.hook c; net := net w |} in
  CharacterPanel.handleGenerate handler token has_callback w
  = if forallb isWhiteSpace (CharacterPanel.prompt c)
    then
      (Return tt,
       {| cells :=
            {| CharacterPanel.prompt := CharacterPanel.prompt c;
               CharacterPanel.style := CharacterPanel.style c;
               CharacterPanel.snackbar :=
                 {| types.open := true;
                    types.message := "Please enter a character description";
                    types.severity := Some types.warning |};
               CharacterPanel.hook := CharacterPanel.hook c;
               CharacterPanel.console := CharacterPanel.console c;
               CharacterPanel.generated := CharacterPanel.generated c |};
          net := net w |})
    else
      match rh.1 with
      | Return result =>
          (Return tt,
           {| cells :=
                {| CharacterPanel.prompt := [];
                   CharacterPanel.style := CharacterPanel.style c;
                   CharacterPanel.snackbar :=
                     {| types.open := true;
                        types.message :=
                          ("Character " ++ types.id result ++ " generated successfully!")%string;
                        types.severity := Some types.success |};
                   CharacterPanel.hook := cells rh.2;
                   CharacterPanel.console := CharacterPanel.console c;
                   CharacterPanel.generated :=
                     if has_callback
                     then CharacterPanel.generated c ++ [types.id result]
                     else CharacterPanel.generated c |};
              net := net rh.2 |})
      | Throw e =>
          (Return tt,
           {| cells :=
                {| CharacterPanel.prompt := CharacterPanel.prompt c;
                   CharacterPanel.style := CharacterPanel.style c;
                   CharacterPanel.snackbar :=
                     {| types.open := true;
                        types.message :=
                          or_else (useCharacterGenerator.error (CharacterPanel.hook c))
                            "Failed to generate character. Please try again.";
                        types.severity := Some types.error_ |};
                   CharacterPanel.hook := cells rh.2;
                   CharacterPanel.console :=
                     CharacterPanel.console c ++ ["Failed to generate character:"%string];
                   CharacterPanel.generated := CharacterPanel.generated c |};
              net := net rh.2 |})
      end.
Proof.
  simpl. unfold CharacterPanel.handleGenerate, CharacterPanel.validateForm, bind, gets.
  rewrite truthy_trim, negb_involutive.
  destruct (forallb isWhiteSpace _); simpl; [done|].
  unfold try_catch, bind, CharacterPanel.in_hook. simpl.
  destruct (useCharacterGenerator.generateCharacter _ _ _ _ _ _) as [[result|e] wh]; simpl;
    [|done].
  by destruct has_callback.
Qed.

(** X17.  [handleGenerate] never rejects, whatever the prompt, the token
    and the server do.  It sends a request exactly when the prompt has a code
    unit that is not white space and the token is a non-empty string: then
    the one request of [generateCharacter], with the prompt as typed (not
    trimmed) and no attributes. *)
Theorem handleGenerate_always_resolves handler (token : option string)
    (has_callback : bool) w :
  let r := CharacterPanel.handleGenerate handler token has_callback w in
  r.1 = Return tt /\
  sent (net r.2)
  = sent (net w) ++
    if negb (forallb isWhiteSpace (CharacterPanel.prompt (cells w))) && token_present token
    then [ useCharacterGenerator.character_request token
             (CharacterPanel.prompt (cells w)) (CharacterPanel.style (cells w)) None ]
    else [].
Proof.
  simpl. rewrite handleGenerate_run.
  destruct (forallb isWhiteSpace _); simpl; [by rewrite app_nil_r|].
  rewrite generateCharacter_run.
  destruct (token_present token); simpl; [|by rewrite app_nil_r].
  destruct (handler _ (server (net w))) as [[d|e] srv']; simpl; [|done].
  by destruct (types.error d) as [[|ch m]|].
Qed.

(** X18.  When the prompt is not blank and the hook's call rejects,
    [handleGenerate] keeps the prompt, does not call [onCharacterGenerated],
    logs to the console, and opens the error snackbar -- with the message of
    the error cell as it was before the call, or the default text when that
    cell was empty: the failure at hand is not what the snackbar says. *)
Theorem handleGenerate_on_failure handler (token : option string)
    (has_callback : bool) w (e : JsError) :
  forallb isWhiteSpace (CharacterPanel.prompt (cells w)) = false ->
  (useCharacterGenerator.generateCharacter handler token
     (CharacterPanel.prompt (cells w)) (CharacterPanel.style (cells w)) None
     {| cells := CharacterPanel.hook (cells w); net := net w |}).1 = Throw e ->
  let r := CharacterPanel.handleGenerate handler token has_callback w in
  CharacterPanel.prompt (cells r.2) = CharacterPanel.prompt (cells w) /\
  CharacterPanel.generated (cells r.2) = CharacterPanel.generated (cells w) /\
  CharacterPanel.console (cells r.2)
  = CharacterPanel.console (cells w) ++ ["Failed to generate character:"%string] /\
  CharacterPanel.snackbar (cells r.2)
  = {| types.open := true;
       types.message :=
         or_else (useCharacterGenerator.error (CharacterPanel.hook (cells w)))
           "Failed to generate character. Please try again.";
       types.severity := Some types.error_ |} /\
  (exists m, useCharacterGenerator.error (CharacterPanel.hook (cells r.2)) = Some m /\
             m <> ""%string) /\
  useCharacterGenerator.loading (CharacterPanel.hook (cells r.2)) = false.
Proof.
  intros Hprompt Hthrow. simpl. rewrite handleGenerate_run. simpl.
  rewrite Hprompt, Hthrow. simpl.
  rewrite generateCharacter_run in Hthrow |- *.
  destruct (token_present token); simpl in *; [|split_and!; try done; by eexists].
  destruct (handler _ _) as [[d|e'] srv']; simpl in *.
  - destruct (types.error d) as [[|ch m]|]; simpl in *; try done.
    split_and!; try done. by eexists.
  - split_and!; try done. eexists. split; [done|]. by repeat apply or_else_nonempty.
Qed.

(** X19.  When the prompt is not blank and the hook's call resolves with
    a character, [handleGenerate] clears the prompt, opens the success
    snackbar naming the character's id, passes that id to
    [onCharacterGenerated] once if the prop is defined (and to nothing
    otherwise), and the hook holds no error. *)
Theorem handleGenerate_on_success handler (token : option string)
    (has_callback : bool) w (result : types.GenerateCharacterResponse) :
  forallb isWhiteSpace (CharacterPanel.prompt (cells w)) = false ->
  (useCharacterGenerator.generateCharacter handler token
     (CharacterPanel.prompt (cells w)) (CharacterPanel.style (cells w)) None
     {| cells := CharacterPanel.hook (cells w); net := net w |}).1 = Return result ->
  let r := CharacterPanel.handleGenerate handler token has_callback w in
  CharacterPanel.prompt (cells r.2) = [] /\
  CharacterPanel.generated (cells r.2)
  = CharacterPanel.generated (cells w) ++ (if has_callback then [types.id result] else []) /\
  CharacterPanel.console (cells r.2) = CharacterPanel.console (cells w) /\
  CharacterPanel.snackbar (cells r.2)
  = {| types.open := true;
       types.message := ("Character " ++ types.id result ++ " generated successfully!")%string;
       types.severity := Some types.success |} /\
  CharacterPanel.hook (cells r.2)
  = {| useCharacterGenerator.loading := false; useCharacterGenerator.error := None |}.
Proof.
  intros Hprompt Hreturn. simpl. rewrite handleGenerate_run. simpl.
  rewrite Hprompt, Hreturn. simpl.
  rewrite generateCharacter_run in Hreturn |- *.
  destruct (token_present token); simpl in *; [|done].
  destruct (handler _ _) as [[d|e'] srv']; simpl in *; [|done].
  destruct (types.error d) as [[|ch m]|]; simpl in *; try done;
    destruct has_callback; by rewrite ?app_nil_r.
Qed.

(** X20.  Typing into the prompt after a failed generation clears the
    error the hook holds: the prompt is the new text, the error cell is
    [null], nothing is sent, and the snackbar stays as the failure left it. *)
Theorem typing_clears_error handler (token : option string) (has_callback : bool) w
    (e : JsError) (value : jsstring) :
  forallb isWhiteSpace (CharacterPanel.prompt (cells w)) = false ->
  (useCharacterGenerator.generateCharacter handler token
     (CharacterPanel.prompt (cells w)) (CharacterPanel.style (cells w)) None
     {| cells := CharacterPanel.hook (cells w); net := net w |}).1 = Throw e ->
  let w1 := (CharacterPanel.handleGenerate handler token has_callback w).2 in
  let r := CharacterPanel.handlePromptChange value w1 in
  r.1 = Return tt /\
  CharacterPanel.prompt (cells r.2) = value /\
  CharacterPanel.hook (cells r.2)
  = {| useCharacterGenerator.loading := false; useCharacterGenerator.error := None |} /\
  CharacterPanel.snackbar (cells r.2) = CharacterPanel.snackbar (cells w1) /\
  net r.2 = net w1.
Proof.
  intros Hprompt Hthrow. simpl. rewrite handleGenerate_run. simpl.
  rewrite Hprompt, Hthrow. simpl.
  rewrite generateCharacter_run in Hthrow |- *.
  unfold CharacterPanel.handlePromptChange, CharacterPanel.clear_truthy_error, bind, gets.
  destruct (token_present token); simpl in *; [|by destruct (net w)].
  destruct (handler _ _) as [[d|e'] srv']; simpl in *.
  - destruct (types.error d) as [[|ch m]|]; simpl in *; try done.
  - destruct (or_else (response_message e') _) as [|ch m] eqn:Hm; [|done].
    exfalso. revert Hm. by repeat apply or_else_nonempty.
Qed.

(** X21.  [validateForm] accepts exactly the prompts that have a code unit
    other than white space; it then changes nothing, and it never touches the
    network or the hook. *)
Theorem validateForm_accepts w :
  let r := @CharacterPanel.validateForm S w in
  r.1 = Return (negb (forallb isWhiteSpace (CharacterPanel.prompt (cells w)))) /\
  (r.1 = Return true -> r.2 = w) /\
  net r.2 = net w /\
  CharacterPanel.hook (cells r.2) = CharacterPanel.hook (cells w) /\
  CharacterPanel.prompt (cells r.2) = CharacterPanel.prompt (cells w).
Proof.
  simpl. unfold CharacterPanel.validateForm, bind, gets. simpl.
  rewrite truthy_trim, negb_involutive.
  by destruct (forallb isWhiteSpace _).
Qed.

End character_panel_handlers.

Lemma handleGenerate_on_failure_witness :
  let w : World CharacterPanel.State unit :=
    {| cells :=
         {| CharacterPanel.prompt := utf16 " a knight";
            CharacterPanel.style := types.fantasy;
            CharacterPanel.snackbar := CharacterPanel.snackbar CharacterPanel.initial;
            CharacterPanel.hook := useCharacterGenerator.initial;
            CharacterPanel.console := [];
            CharacterPanel.generated := [] |};
       net := {| server := tt; sent := [] |} |} in
  let handler : Handler unit types.GenerateCharacterResponse :=
    fun _ srv => (Throw (Error "Network Error"), srv) in
  let r := CharacterPanel.handleGenerate handler None true w in
  CharacterPanel.prompt (cells r.2) = CharacterPanel.prompt (cells w) /\
  CharacterPanel.generated (cells r.2) = CharacterPanel.generated (cells w) /\
  CharacterPanel.console (cells r.2)
  = (CharacterPanel.console (cells w) ++ ["Failed to generate character:"])%list /\
  CharacterPanel.snackbar (cells r.2)
  = {| types.open := true;
       types.message := "Failed to generate character. Please try again.";
       types.severity := Some types.error_ |} /\
  (exists m, useCharacterGenerator.error (CharacterPanel.hook (cells r.2)) = Some m /\
             m <> "") /\
  useCharacterGenerator.loading (CharacterPanel.hook (cells r.2)) = false.
Proof.
  intros w handler.
  apply (handleGenerate_on_failure handler None true w (Error "Authentication required"));
    reflexivity.
Defined.

Lemma handleGenerate_on_success_witness :
  let answer :=
    {| types.id := "c7"; types.modelData := JNull; types.traits := JObject [];
       types.style := types.fantasy; types.attributes := JObject [];
       types.status := types.pending; types.progress := 0; types.error := None |} in
  let w : World CharacterPanel.State nat :=
    {| cells :=
         {| CharacterPanel.prompt := utf16 "a knight";
            CharacterPanel.style := types.fantasy;
            CharacterPanel.snackbar := CharacterPanel.snackbar CharacterPanel.initial;
            CharacterPanel.hook := useCharacterGenerator.initial;
            CharacterPanel.console := [];
            CharacterPanel.generated := [] |};
       net := {| server := 0%nat; sent := [] |} |} in
  let handler : Handler nat types.GenerateCharacterResponse :=
    fun _ jobs => (Return answer, Datatypes.S jobs) in
  let r := CharacterPanel.handleGenerate handler (Some "jwt") false w in
  CharacterPanel.prompt (cells r.2) = [] /\
  CharacterPanel.generated (cells r.2) = (CharacterPanel.generated (cells w) ++ [])%list /\
  CharacterPanel.console (cells r.2) = CharacterPanel.console (cells w) /\
  CharacterPanel.snackbar (cells r.2)
  = {| types.open := true;
       types.message := "Character c7 generated successfully!";
       types.severity := Some types.success |} /\
  CharacterPanel.hook (cells r.2)
  = {| useCharacterGenerator.loading := false; useCharacterGenerator.error := None |}.
Proof.
  intros answer w handler.
  apply (handleGenerate_on_success handler (Some "jwt") false w answer); reflexivity.
Defined.

Lemma typing_clears_error_witness :
  let w : World CharacterPanel.State unit :=
    {| cells :=
         {| CharacterPanel.prompt := utf16 "a knight";
            CharacterPanel.style := types.fantasy;
            CharacterPanel.snackbar := CharacterPanel.snackbar CharacterPanel.initial;
            CharacterPanel.hook := useCharacterGenerator.initial;
            CharacterPanel.console := [];
            CharacterPanel.generated := [] |};
       net := {| server := tt; sent := [] |} |} in
  let handler : Handler unit types.GenerateCharacterResponse :=
    fun _ srv => (Throw (Error "Network Error"), srv) in
  let w1 := (CharacterPanel.handleGenerate handler (Some "jwt") true w).2 in
  let r := CharacterPanel.handlePromptChange (utf16 "a knight in armour") w1 in
  r.1 = Return tt /\
  CharacterPanel.prompt (cells r.2) = utf16 "a knight in armour" /\
  CharacterPanel.hook (cells r.2)
  = {| useCharacterGenerator.loading := false; useCharacterGenerator.error := None |} /\
  CharacterPanel.snackbar (cells r.2) = CharacterPanel.snackbar (cells w1) /\
  net r.2 = net w1.
Proof.
  intros w handler.
  apply (typing_clears_error handler (Some "jwt") true w (Error "Network Error")
           (utf16 "a knight in armour")); reflexivity.
Defined.

(** ** The auth provider *)

Section auth.
Context {S : Type}.
Implicit Types (handler : useAuth.AuthHandler S) (w : useAuth.World S).
Local Open Scope list_scope.

(** What [login] and [register] do, by the server's answer. *)
Lemma sign_in_run handler (req : useAuth.AuthRequest) (failure : string) w :
  try_catch
    (response_data <- useAuth.post handler req ;; useAuth.sign_in response_data)%js
    (fun _ => throw (Error failure)) w
  = match handler req (useAuth.server w) with
    | (Return data, server') =>
        (Return tt,
         {| useAuth.user := Some (useAuth.response_user data);
            useAuth.token := Some (useAuth.response_token data);
            useAuth.localStorage :=
              <["token" := useAuth.response_token data]> (useAuth.localStorage w);
            useAuth.defaults :=
              <["Authorization" := ("Bearer " ++ useAuth.response_token data)%string]>
                (useAuth.defaults w);
            useAuth.server := server'; useAuth.sent := useAuth.sent w ++ [req] |})
    | (Throw e, server') =>
        (Throw (Error failure),
         {| useAuth.user := useAuth.user w; useAuth.token := useAuth.token w;
            useAuth.localStorage := useAuth.localStorage w;
            useAuth.defaults := useAuth.defaults w;
            useAuth.server := server'; useAuth.sent := useAuth.sent w ++ [req] |})
    end.
Proof.
  unfold try_catch, bind, useAuth.post, useAuth.sign_in, modify, throw.
  by destruct (handler req (useAuth.server w)) as [[data|e] server'].
Qed.




(** X24.  After [logout] nothing of the sign-in is left -- no user, no
    token, no [token] item, no [Authorization] default header -- so the
    interceptor of [api] adds no header, and [generateCharacter] with the
    provider's token rejects with [Authentication required] and sends
    nothing. *)
Theorem logout_signs_out w (headers : gmap string string)
    {S' : Type} (handler' : Handler S' types.GenerateCharacterResponse)
    (prompt : jsstring) (style : types.CharacterStyle) (attributes : option any)
    (wg : World useCharacterGenerator.State S') :
  let w' := (useAuth.logout w).2 in
  useAuth.user w' = None /\ useAuth.token w' = None /\
  useAuth.localStorage w' !! "token" = None /\
  useAuth.defaults w' !! "Authorization" = None /\
  api.interceptor (useAuth.localStorage w') headers = headers /\
  let r := useCharacterGenerator.generateCharacter handler' (useAuth.token w')
             prompt style attributes wg in
  r.1 = Throw (Error "Authentication required") /\ net r.2 = net wg.
Proof.
  simpl. split_and!; try done;
    try (by rewrite lookup_delete_eq);
    try (unfold api.interceptor; by rewrite lookup_delete_eq);
    by rewrite generateCharacter_run.
Qed.

(** X25.  After a [login] that the server answers with a non-empty token,
    the three places agree: the [Authorization] header that
    [generateCharacter] sends with the provider's token, the default header
    of [axios], and the header the interceptor of [api] adds from
    [localStorage] are all [Bearer] and that token. *)
Theorem login_authorizes handler (email password : string) w
    (data : useAuth.AuthResponse) (server' : S)
    {S' : Type} (handler' : Handler S' types.GenerateCharacterResponse)
    (prompt : jsstring) (style : types.CharacterStyle) (attributes : option any)
    (wg : World useCharacterGenerator.State S') :
  handler (useAuth.LoginRequest email password) (useAuth.server w) = (Return data, server') ->
  useAuth.response_token data <> ""%string ->
  let r := useAuth.login handler email password w in
  let bearer_token := ("Bearer " ++ useAuth.response_token data)%string in
  r.1 = Return tt /\
  useAuth.user r.2 = Some (useAuth.response_user data) /\
  useAuth.token r.2 = Some (useAuth.response_token data) /\
  useAuth.defaults r.2 !! "Authorization" = Some bearer_token /\
  api.interceptor (useAuth.localStorage r.2) ∅ !! "Authorization" = Some bearer_token /\
  exists req,
    sent (net (useCharacterGenerator.generateCharacter handler' (useAuth.token r.2)
                 prompt style attributes wg).2)
    = sent (net wg) ++ [req] /\
    headers req = [("Content-Type", "application/json"%string);
                   ("Authorization", bearer_token)].
Proof.
  intros Hans Htok. simpl. unfold useAuth.login. rewrite sign_in_run, Hans. simpl.
  destruct (useAuth.response_token data) as [|c t] eqn:Hdata; [done|].
  split_and!; try done.
  - by rewrite lookup_insert_eq.
  - unfold api.interceptor. by rewrite lookup_insert_eq, lookup_insert_eq.
  - rewrite generateCharacter_run. simpl.
    destruct (handler' _ _) as [[d|e] srv']; simpl.
    + destruct (types.error d) as [[|ch m]|]; by eexists.
    + by eexists.
Qed.

End auth.



Lemma login_authorizes_witness :
  let ada := {| useAuth.id := 1; useAuth.email := "ada@example.org";
                useAuth.username := "ada"; useAuth.roles := ["user"] |} in
  let data := {| useAuth.response_token := "jwt"; useAuth.response_user := ada |} in
  let handler : useAuth.AuthHandler unit := fun _ srv => (Return data, srv) in
  let handler' : Handler unit types.GenerateCharacterResponse :=
    fun _ srv => (Throw (Error "Network Error"), srv) in
  let w := useAuth.mount ∅ ∅ tt in
  let wg : World useCharacterGenerator.State unit :=
    {| cells := useCharacterGenerator.initial; net := {| server := tt; sent := [] |} |} in
  let r := useAuth.login handler "ada@example.org" "secret" w in
  r.1 = Return tt /\
  useAuth.user r.2 = Some ada /\
  useAuth.token r.2 = Some "jwt" /\
  useAuth.defaults r.2 !! "Authorization" = Some "Bearer jwt" /\
  api.interceptor (useAuth.localStorage r.2) ∅ !! "Authorization" = Some "Bearer jwt" /\
  exists req,
    sent (net (useCharacterGenerator.generateCharacter handler' (useAuth.token r.2)
                 (utf16 "a knight") types.modern None wg).2)
    = (sent (net wg) ++ [req])%list /\
    headers req = [("Content-Type", "application/json"); ("Authorization", "Bearer jwt")].
Proof.
  intros ada data handler handler' w wg.
  apply (login_authorizes handler "ada@example.org" "secret" w data tt handler'
           (utf16 "a knight") types.modern None wg); [reflexivity|done].
Defined.

(** A server that answers a sign-in with an empty token: [login] resolves
    and sets the user, yet [generateCharacter] still asks for
    authentication. *)
Example login_with_empty_token :
  let ada := {| useAuth.id := 1; useAuth.email := "ada@example.org";
                useAuth.username := "ada"; useAuth.roles := [] |} in
  let handler : useAuth.AuthHandler unit :=
    fun _ srv => (Return {| useAuth.response_token := "";
                            useAuth.response_user := ada |}, srv) in
  let handler' : Handler unit types.GenerateCharacterResponse :=
    fun _ srv => (Throw (Error "Network Error"), srv) in
  let r := useAuth.login handler "ada@example.org" "secret" (useAuth.mount ∅ ∅ tt) in
  let wg : World useCharacterGenerator.State unit :=
    {| cells := useCharacterGenerator.initial; net := {| server := tt; sent := [] |} |} in
  r.1 = Return tt /\ useAuth.user r.2 = Some ada /\
  (useCharacterGenerator.generateCharacter handler' (useAuth.token r.2)
     (utf16 "a knight") types.modern None wg).1
  = Throw (Error "Authentication required").
Proof. vm_compute. by split_and!. Qed.

(** ** Reading the keyframe store back *)

Section keyframe_reads.
Import useAnimation.
Implicit Types (k : Keyframe) (l : list Keyframe) (tr : Track) (ts : list Track).
Local Open Scope list_scope.






End keyframe_reads.

(** ** The error boundary *)

Section error_boundary.
Import ErrorBoundary.

(** X27.  After any history of child errors and presses of [Try Again],
    the boundary renders the fallback exactly when the last event was a child
    error -- with that error's message and, in development only, that
    error's component stack -- and the children otherwise; a press of
    [Try Again] always brings back the initial state. *)
Theorem boundary_shows_last_error (events : list Event) (development : bool) :
  render development (history events)
  = match last events with
    | Some (ChildThrew e info) =>
        Fallback (Some (err_message e))
          (if development then Some (componentStack info) else None)
    | _ => Children
    end /\
  history (events ++ [TryAgain]) = initial.
Proof.
  split.
  - destruct events as [|ev events _] using rev_ind; [done|].
    unfold history. rewrite foldl_app, last_snoc. simpl.
    destruct ev as [e info|]; [|done]. by destruct development.
  - unfold history. by rewrite foldl_app.
Qed.

End error_boundary.
